(** * tsh: a tiny shell with job control

    A shallow embedding of [tsh.c]: the job table, the tokenizer
    [parseline], the evaluator [eval] with its built-ins, and the three
    signal handlers, followed by the properties of the job-control engine.

    Conventions of the embedding.
    - C [int] and [pid_t] values are [Z].  The job-id counter moves by one
      per command and pids come from [fork], so no arithmetic of the
      program leaves the range of [int] in any run of practical length.
      The numbers read from the command line are another matter: what
      [sscanf] stores is cut to the 32 bits of an [int].
    - A C string is a [string] without a NUL; where the program takes one
      out of a buffer that may hold a NUL, the cut is written out.
    - The global [job_list] is a [list job_t] of [MAXJOBS] slots; a pointer
      [&job_list[i]] is the slot index [i]; a loop over the slots is a
      search or a fold over the list, in slot order.
    - Everything the shell does to the outside world (text written to
      standard output, [kill], [fork], descriptor juggling) is appended to
      a trace, oldest event first.
    - The shell's own signals reach it at the places the environment of
      an evaluation names: in the waiting loop of a foreground command,
      before the acknowledgement of a background command for the status
      change of that child, and between two command lines.
    - Operating-system calls are assumed to succeed; the wrappers that
      abort the shell on an unexpected failure ([unix_error]) are outside
      the model.  Handlers run to completion once started. *)

From Stdlib Require Import ZArith List String Ascii DecimalString Lia.
From stdpp Require Import base list strings.
Import ListNotations.
Open Scope string_scope.
Open Scope list_scope.
Open Scope Z_scope.

(** ** Manifest constants *)

Definition MAXLINE : Z := 1024.
Definition MAXARGS : Z := 128.
Definition MAXJOBS : Z := 16.

(** Job states ([UNDEF], [FG], [BG], [ST] are 0, 1, 2, 3 in the source). *)
Inductive job_state := UNDEF | FG | BG | ST.

#[global] Instance job_state_eq_dec : EqDecision job_state.
Proof. solve_decision. Defined.

(** Parsing states of the tokenizer; they are combined with a bitwise or. *)
Definition ST_NORMAL : Z := 0.
Definition ST_INFILE : Z := 1.
Definition ST_OUTFILE : Z := 2.

(** ** Data *)

Record job_t := Job {
  pid : Z;            (* job PID *)
  jid : Z;            (* job ID [1, 2, ...] *)
  state : job_state;  (* UNDEF, BG, FG, or ST *)
  cmdline : string    (* command line *)
}.

Inductive builtins_t :=
  BUILTIN_NONE | BUILTIN_QUIT | BUILTIN_JOBS | BUILTIN_BG | BUILTIN_FG.

#[global] Instance builtins_eq_dec : EqDecision builtins_t.
Proof. solve_decision. Defined.

(** [argv] is the NULL-terminated argument array, [argc] its length. *)
Record cmdline_tokens := Tokens {
  argv : list string;
  infile : option string;
  outfile : option string;
  builtins : builtins_t
}.

Definition argc (tok : cmdline_tokens) : Z := Z.of_nat (length (argv tok)).

Inductive signal := SIGCHLD | SIGINT | SIGTSTP | SIGQUIT | SIGCONT.

#[global] Instance signal_eq_dec : EqDecision signal.
Proof. solve_decision. Defined.

Definition signum (sg : signal) : Z :=
  match sg with
  | SIGINT => 2 | SIGQUIT => 3 | SIGCHLD => 17 | SIGCONT => 18 | SIGTSTP => 20
  end.

(** A signal set is the list of its members. *)
Definition sigset := list signal.

Definition sigismember (set : sigset) (sg : signal) : bool :=
  bool_decide (sg ∈ set).

(** The status word filled in by [waitpid], seen through the four
    predicates the child-status handler applies to it. *)
Inductive wstatus :=
| WExited (code : Z)
| WSignaled (sg : Z)
| WStopped (sg : Z)
| WContinued.

Definition WIFEXITED (w : wstatus) : bool :=
  match w with WExited _ => true | _ => false end.
Definition WIFSIGNALED (w : wstatus) : bool :=
  match w with WSignaled _ => true | _ => false end.
Definition WIFSTOPPED (w : wstatus) : bool :=
  match w with WStopped _ => true | _ => false end.
Definition WIFCONTINUED (w : wstatus) : bool :=
  match w with WContinued => true | _ => false end.
Definition WTERMSIG (w : wstatus) : Z :=
  match w with WSignaled sg => sg | _ => 0 end.
(** [WSTOPSIG] reads the second byte of the status word, which holds the
    exit code of a child that exited. *)
Definition WSTOPSIG (w : wstatus) : Z :=
  match w with WStopped sg => sg | WExited c => c | _ => 0 end.

(** Effects on the outside world. *)
Inductive event :=
| Output (text : string)              (* written to standard output *)
| KillCall (target : Z) (sg : signal) (* kill(target, sg); a negative target is a process group *)
| ForkCall (child : Z)                (* fork(), as seen by the parent *)
| DupSave (fd : Z)                    (* dup(fd), kept for restoring *)
| OpenDup (path : string) (fd : Z)    (* open(path) then dup2 onto fd *)
| DupRestore (fd : Z).                (* dup2(saved, fd) *)

(** The globals of the program, the signal mask of the process and the
    trace of effects. *)
Record shell := Shell {
  job_list : list job_t;
  nextjid : Z;          (* next job ID to allocate *)
  verbose : bool;       (* if true, print additional output *)
  sigmask : sigset;     (* signals blocked from delivery *)
  trace : list event
}.

Definition with_jobs (jobs : list job_t) (s : shell) : shell :=
  Shell jobs (nextjid s) (verbose s) (sigmask s) (trace s).
Definition with_nextjid (n : Z) (s : shell) : shell :=
  Shell (job_list s) n (verbose s) (sigmask s) (trace s).
Definition with_sigmask (m : sigset) (s : shell) : shell :=
  Shell (job_list s) (nextjid s) (verbose s) m (trace s).
Definition with_trace (t : list event) (s : shell) : shell :=
  Shell (job_list s) (nextjid s) (verbose s) (sigmask s) t.

(** ** The monad of shell code

    A piece of shell code either returns, or ends the process through
    [exit], or stays suspended in [sigsuspend] because no further signal
    is ever delivered. *)

Inductive outcome (A : Type) :=
| Ret (a : A) (s : shell)
| Halt (code : Z) (s : shell)
| Blocked (s : shell).
Arguments Ret {A} a s.
Arguments Halt {A} code s.
Arguments Blocked {A} s.

Definition M (A : Type) : Type := shell -> outcome A.

Definition ret {A} (a : A) : M A := fun s => Ret a s.

Definition bind {A B} (c : M A) (k : A -> M B) : M B :=
  fun s =>
    match c s with
    | Ret a s' => k a s'
    | Halt code s' => Halt code s'
    | Blocked s' => Blocked s'
    end.

Notation "'do' x <- c ; k" := (bind c (fun x => k))
  (at level 10, x name, c at level 100, k at level 200).
Notation "c ;; k" := (bind c (fun _ => k))
  (at level 100, k at level 200, right associativity).

Definition gets {A} (f : shell -> A) : M A := fun s => Ret (f s) s.
Definition modify (f : shell -> shell) : M unit := fun s => Ret tt (f s).
Definition exit {A} (code : Z) : M A := fun s => Halt code s.
Definition emit (e : event) : M unit :=
  modify (fun s => with_trace (trace s ++ [e]) s).
Definition when (b : bool) (c : M unit) : M unit := if b then c else ret tt.

(** ** Text *)

Definition nl : string := String (ascii_of_nat 10) EmptyString.

(** The text [printf] produces for a [%d] conversion. *)
Definition dec (z : Z) : string := NilZero.string_of_int (Z.to_int z).

Definition printf (text : string) : M unit := emit (Output text).

Definition Kill (target : Z) (sg : signal) : M unit := emit (KillCall target sg).

(** ** Signal mask *)

(** [Sigprocmask(SIG_BLOCK, &set, &prev)]: returns the previous mask. *)
Definition Sigprocmask_BLOCK (set : sigset) : M sigset :=
  do prev <- gets sigmask;
  modify (with_sigmask (prev ++ set));;
  ret prev.

(** [Sigprocmask(SIG_SETMASK, &set, NULL)]. *)
Definition Sigprocmask_SETMASK (set : sigset) : M unit :=
  modify (with_sigmask set).

(** ** Helper routines that manipulate the job list *)

(** clearjob - Clear the entries in a job struct *)
Definition clearjob (j : job_t) : job_t :=
  {| pid := 0; jid := 0; state := UNDEF; cmdline := "" |}.

(** initjobs - Initialize the job list; the array starts zeroed. *)
Definition initjobs : list job_t :=
  clearjob <$> replicate (Z.to_nat MAXJOBS) (Job 0 0 UNDEF "").

(** maxjid - Returns largest allocated job ID *)
Definition maxjid (jobs : list job_t) : Z :=
  fold_left (fun max j => if jid j >? max then jid j else max) jobs 0.

(** The first slot, in slot order, that passes a test: the search loop
    shared by the routines below. *)
Definition first_slot (P : job_t -> Prop) `{!∀ j, Decision (P j)}
    (jobs : list job_t) : option (nat * job_t) :=
  list_find P jobs.

(** addjob - Add a job to the job list *)
Definition addjob (p : Z) (st : job_state) (cmd : string) : M Z :=
  if p <? 1 then ret 0
  else
    do jobs <- gets job_list;
    match first_slot (fun j => pid j = 0) jobs with
    | Some (i, _) =>
        do n <- gets nextjid;
        let j := {| pid := p; jid := n; state := st; cmdline := cmd |} in
        modify (with_jobs (<[i := j]> jobs));;
        modify (with_nextjid (if n + 1 >? MAXJOBS then 1 else n + 1));;
        do v <- gets verbose;
        when v (printf ("Added job [" +:+ dec (jid j) +:+ "] " +:+ dec (pid j)
                        +:+ " " +:+ cmdline j +:+ nl));;
        ret 1
    | None =>
        printf ("Tried to create too many jobs" +:+ nl);;
        ret 0
    end.

(** deletejob - Delete a job whose PID=pid from the job list *)
Definition deletejob (p : Z) : M Z :=
  if p <? 1 then ret 0
  else
    do jobs <- gets job_list;
    match first_slot (fun j => pid j = p) jobs with
    | Some (i, j) =>
        let jobs' := <[i := clearjob j]> jobs in
        modify (with_jobs jobs');;
        modify (with_nextjid (maxjid jobs' + 1));;
        ret 1
    | None => ret 0
    end.

(** stopjob - stop job with PID=pid from the job list *)
Definition stopjob (p : Z) : M Z :=
  if p <? 1 then ret 0
  else
    do jobs <- gets job_list;
    match first_slot (fun j => pid j = p) jobs with
    | Some (i, j) =>
        modify (with_jobs (<[i := Job (pid j) (jid j) ST (cmdline j)]> jobs));;
        ret 1
    | None => ret 0
    end.

(** fgpid - Return PID of current foreground job, 0 if no such job *)
Definition fgpid (jobs : list job_t) : Z :=
  match first_slot (fun j => state j = FG) jobs with
  | Some (_, j) => pid j
  | None => 0
  end.

(** getjobpid - Find a job (by PID) on the job list; [None] is NULL. *)
Definition getjobpid (jobs : list job_t) (p : Z) : option (nat * job_t) :=
  if p <? 1 then None else first_slot (fun j => pid j = p) jobs.

(** getjobjid - Find a job (by JID) on the job list *)
Definition getjobjid (jobs : list job_t) (n : Z) : option (nat * job_t) :=
  if n <? 1 then None else first_slot (fun j => jid j = n) jobs.

(** pid2jid - Map process ID to job ID *)
Definition pid2jid (jobs : list job_t) (p : Z) : Z :=
  if p <? 1 then 0
  else match first_slot (fun j => pid j = p) jobs with
       | Some (_, j) => jid j
       | None => 0
       end.

(** listjobs - Print the job list *)
Definition listjobs_line (i : nat) (j : job_t) : list event :=
  if pid j =? 0 then []
  else [ Output ("[" +:+ dec (jid j) +:+ "] (" +:+ dec (pid j) +:+ ") ");
         Output (match state j with
                 | BG => "Running    "
                 | FG => "Foreground "
                 | ST => "Stopped    "
                 | UNDEF => "listjobs: Internal error: job[" +:+ dec (Z.of_nat i)
                            +:+ "].state=" +:+ dec 0 +:+ " "
                 end);
         Output (cmdline j +:+ nl) ].

Definition listjobs : M unit :=
  do jobs <- gets job_list;
  modify (fun s => with_trace (trace s ++ concat (imap listjobs_line jobs)) s).

(** ** parseline - Parse the command line and build the argv array

    The pointer [buf] that traverses the local copy of the line is the
    text from [buf] up to [endbuf].  The line is a C string shorter than
    [MAXLINE], as [main] reads it. *)

Definition tab : ascii := ascii_of_nat 9.
Definition cr : ascii := ascii_of_nat 13.
Definition lf : ascii := ascii_of_nat 10.
Definition squote : ascii := ascii_of_nat 39.
Definition dquote : ascii := ascii_of_nat 34.

(** Membership in [delims], the white-space characters. *)
Definition is_delim (c : ascii) : bool :=
  Ascii.eqb c " " || Ascii.eqb c tab || Ascii.eqb c cr || Ascii.eqb c lf.

(** [buf += strspn(buf, delims)] *)
Fixpoint skip_delims (buf : string) : string :=
  match buf with
  | String c rest => if is_delim c then skip_delims rest else buf
  | EmptyString => buf
  end.

(** [next = buf + strcspn(buf, delims)]: the text before [next], and the
    text from [next] on. *)
Fixpoint upto_delim (buf : string) : string * string :=
  match buf with
  | String c rest =>
      if is_delim c then (EmptyString, buf)
      else let (token, next) := upto_delim rest in (String c token, next)
  | EmptyString => (EmptyString, EmptyString)
  end.

(** [next = strchr(buf, q)]: [None] when [q] does not occur. *)
Fixpoint upto_char (q : ascii) (buf : string) : option (string * string) :=
  match buf with
  | String c rest =>
      if Ascii.eqb c q then Some (EmptyString, buf)
      else match upto_char q rest with
           | Some (token, next) => Some (String c token, next)
           | None => None
           end
  | EmptyString => None
  end.

(** [next + 1] *)
Definition after (next : string) : string :=
  match next with
  | String _ rest => rest
  | EmptyString => EmptyString
  end.

(** The fields of [tok] filled in by the loop, and [parsing_state]. *)
Record scan_acc := Acc {
  a_argv : list string;
  a_infile : option string;
  a_outfile : option string;
  a_state : Z
}.

Definition ambiguous : string := "Error: Ambiguous I/O redirection" +:+ nl.

(** The [switch] that records a token as the next argument or as an i/o
    file, followed by [parsing_state = ST_NORMAL]. *)
Definition record_token (token : string) (a : scan_acc) : option scan_acc :=
  if a_state a =? ST_NORMAL then
    Some (Acc (a_argv a ++ [token]) (a_infile a) (a_outfile a) ST_NORMAL)
  else if a_state a =? ST_INFILE then
    Some (Acc (a_argv a) (Some token) (a_outfile a) ST_NORMAL)
  else if a_state a =? ST_OUTFILE then
    Some (Acc (a_argv a) (a_infile a) (Some token) ST_NORMAL)
  else None.

(** The [while (buf < endbuf)] loop.  Every iteration that goes round
    again has moved [buf] forward, so the length of the line bounds the
    number of iterations; [fuel] counts them. *)
Fixpoint scan (fuel : nat) (buf : string) (a : scan_acc)
    : option (string + scan_acc) :=
  match fuel with
  | O => None
  | S fuel =>
      match skip_delims buf with
      | EmptyString => Some (inr a)
      | String c rest =>
          if Ascii.eqb c "<" then
            match a_infile a with
            | Some _ => Some (inl ambiguous)
            | None =>
                scan fuel rest
                  (Acc (a_argv a) (a_infile a) (a_outfile a)
                       (Z.lor (a_state a) ST_INFILE))
            end
          else if Ascii.eqb c ">" then
            match a_outfile a with
            | Some _ => Some (inl ambiguous)
            | None =>
                scan fuel rest
                  (Acc (a_argv a) (a_infile a) (a_outfile a)
                       (Z.lor (a_state a) ST_OUTFILE))
            end
          else
            let found :=
              if Ascii.eqb c squote || Ascii.eqb c dquote
              then upto_char c rest
              else Some (upto_delim (String c rest)) in
            match found with
            | None =>
                Some (inl ("Error: unmatched " +:+ String c "." +:+ nl))
            | Some (token, next) =>
                match record_token token a with
                | None => Some (inl ambiguous)
                | Some a' =>
                    if Z.of_nat (length (a_argv a')) >=? MAXARGS - 1
                    then Some (inr a')
                    else scan fuel (after next) a'
                end
            end
      end
  end.

Inductive parsed :=
| ParseError (msg : string)                 (* parseline returns -1 *)
| Parsed (is_bg : Z) (tok : cmdline_tokens). (* parseline returns is_bg *)

Definition classify (arg0 : string) : builtins_t :=
  if String.eqb arg0 "quit" then BUILTIN_QUIT
  else if String.eqb arg0 "jobs" then BUILTIN_JOBS
  else if String.eqb arg0 "bg" then BUILTIN_BG
  else if String.eqb arg0 "fg" then BUILTIN_FG
  else BUILTIN_NONE.

(** [*s == '&'] *)
Definition starts_with_amp (s : string) : bool :=
  match s with
  | String c _ => Ascii.eqb c "&"
  | EmptyString => false
  end.

(** The part of [parseline] after the loop.  On a blank line the field
    [builtins] is left as it was; it is never read then. *)
Definition finish_parse (a : scan_acc) : parsed :=
  if negb (a_state a =? ST_NORMAL) then
    ParseError ("Error: must provide file name for redirection" +:+ nl)
  else
    match a_argv a with
    | [] => Parsed 1 (Tokens [] (a_infile a) (a_outfile a) BUILTIN_NONE)
    | arg0 :: _ =>
        let b := classify arg0 in
        if starts_with_amp (List.last (a_argv a) EmptyString)
        then Parsed 1 (Tokens (removelast (a_argv a)) (a_infile a) (a_outfile a) b)
        else Parsed 0 (Tokens (a_argv a) (a_infile a) (a_outfile a) b)
    end.

(** The value and the tokens [parseline] computes. *)
Definition parse (cmdline : string) : parsed :=
  match scan (S (String.length cmdline)) cmdline (Acc [] None None ST_NORMAL) with
  | Some (inr a) => finish_parse a
  | Some (inl msg) => ParseError msg
  | None => ParseError EmptyString
  end.

(** [parseline] itself: the messages go to standard error, which [main]
    has redirected to standard output. *)
Definition parseline (cmdline : string) : M parsed :=
  match parse cmdline with
  | ParseError msg => printf msg;; ret (ParseError msg)
  | r => ret r
  end.

(** ** The conversions of [sscanf] used by bg and fg *)

Definition isspace (c : ascii) : bool :=
  is_delim c || Ascii.eqb c (ascii_of_nat 11) || Ascii.eqb c (ascii_of_nat 12).

Fixpoint skip_space (s : string) : string :=
  match s with
  | String c rest => if isspace c then skip_space rest else s
  | EmptyString => s
  end.

Definition digit (c : ascii) : option Z :=
  let n := Z.of_nat (nat_of_ascii c) in
  if (48 <=? n) && (n <=? 57) then Some (n - 48) else None.

Fixpoint digits (s : string) (acc : Z) : Z :=
  match s with
  | String c rest =>
      match digit c with
      | Some d => digits rest (10 * acc + d)
      | None => acc
      end
  | EmptyString => acc
  end.

(** The number converted is stored in an [int].  The C library reads it
    as [strtol] does, which stops at the bounds of a [long], and the
    assignment to the [int] keeps the low 32 bits, in two's complement. *)
Definition LONG_MAX : Z := 9223372036854775807.
Definition LONG_MIN : Z := - 9223372036854775808.

Definition strtol_range (z : Z) : Z := Z.max LONG_MIN (Z.min LONG_MAX z).

Definition to_int (z : Z) : Z := (z + 2147483648) mod 4294967296 - 2147483648.

(** A [%d] conversion: white space, an optional sign, at least one digit. *)
Definition conv_d (s : string) : option Z :=
  let s := skip_space s in
  let (negative, s) :=
    match s with
    | String c rest =>
        if Ascii.eqb c "-" then (true, rest)
        else if Ascii.eqb c "+" then (false, rest)
        else (false, s)
    | EmptyString => (false, s)
    end in
  match s with
  | String c _ =>
      match digit c with
      | Some _ =>
          Some (to_int (strtol_range (if negative then - digits s 0 else digits s 0)))
      | None => None
      end
  | EmptyString => None
  end.

(** [sscanf(s, "%d", &pid)]: the converted value, or [None] when nothing
    was stored. *)
Definition sscanf_d (s : string) : option Z := conv_d s.

(** [sscanf(s, "%c%d", &c, &jid)]: both values when the call returns 2. *)
Definition sscanf_c_d (s : string) : option (ascii * Z) :=
  match s with
  | String c rest =>
      match conv_d rest with
      | Some n => Some (c, n)
      | None => None
      end
  | EmptyString => None
  end.

(** ** Built-in commands *)

Definition set_state (st : job_state) (j : job_t) : job_t :=
  {| pid := pid j; jid := jid j; state := st; cmdline := cmdline j |}.

(** The line printed for a job sent to the background. *)
Definition bg_line (n p : Z) (cmd : string) : string :=
  "[" +:+ dec n +:+ "] (" +:+ dec p +:+ ") " +:+ cmd +:+ " " +:+ nl.

(** execbg - handles the bg builtin command.  [junk] is the indeterminate
    value the local [pid] holds when the first [sscanf] stores nothing. *)
Definition execbg (tok : cmdline_tokens) (junk : Z) : M Z :=
  if argc tok =? 2 then
    let arg := nth 1 (argv tok) EmptyString in
    let p := match sscanf_d arg with Some v => v | None => junk end in
    do jobs <- gets job_list;
    match getjobpid jobs p with
    | Some (i, j) =>
        modify (with_jobs (<[i := set_state BG j]> jobs));;
        do jobs' <- gets job_list;
        printf (bg_line (pid2jid jobs' p) p (cmdline j));;
        Kill (- p) SIGCONT;;
        ret 1
    | None =>
        match sscanf_c_d arg with
        | None => ret 0
        | Some (_, n) =>
            match getjobjid jobs n with
            | None => ret 0
            | Some (i, j) =>
                modify (with_jobs (<[i := set_state BG j]> jobs));;
                printf (bg_line n (pid j) (cmdline j));;
                Kill (- pid j) SIGCONT;;
                ret 1
            end
        end
    end
  else ret 0.

(** execfg - handles the fg builtin command *)
Definition execfg (tok : cmdline_tokens) (junk : Z) : M Z :=
  if argc tok =? 2 then
    let arg := nth 1 (argv tok) EmptyString in
    let p := match sscanf_d arg with Some v => v | None => junk end in
    do jobs <- gets job_list;
    match getjobpid jobs p with
    | Some (i, j) =>
        modify (with_jobs (<[i := set_state FG j]> jobs));;
        Kill p SIGCONT;;
        ret 1
    | None =>
        match sscanf_c_d arg with
        | None => ret 0
        | Some (_, n) =>
            match getjobjid jobs n with
            | None => ret 0
            | Some (i, j) =>
                modify (with_jobs (<[i := set_state FG j]> jobs));;
                Kill (pid j) SIGCONT;;
                ret 1
            end
        end
    end
  else ret 0.

Definition redirect (path : option string) (fd : Z) : M unit :=
  match path with
  | Some file => emit (OpenDup file fd)
  | None => ret tt
  end.

(** builtin_command - if first arg is built in command, run it and
    return 1 *)
Definition builtin_command (tok : cmdline_tokens) (junk : Z) : M Z :=
  redirect (infile tok) 0;;
  redirect (outfile tok) 1;;
  match builtins tok with
  | BUILTIN_QUIT => exit 0
  | BUILTIN_JOBS => listjobs;; ret 1
  | BUILTIN_BG => execbg tok junk
  | BUILTIN_FG => execfg tok junk
  | BUILTIN_NONE =>
      if String.eqb (hd EmptyString (argv tok)) "&" then ret 1 else ret 0
  end.

(** ** Signal handlers *)

Definition job_tag (jobs : list job_t) (p : Z) : string :=
  "Job [" +:+ dec (pid2jid jobs p) +:+ "] (" +:+ dec p +:+ ")".

(** The body of the reaping loop, for the child [p] whose status [w] was
    returned by [waitpid]. *)
Definition reap (p : Z) (w : wstatus) : M unit :=
  do prev <- Sigprocmask_BLOCK [SIGCHLD; SIGINT; SIGTSTP];
  do v <- gets verbose;
  (do jobs <- gets job_list;
   when v (printf ("sigchld_handler: " +:+ job_tag jobs p +:+ " in handler " +:+ nl)));;
  (if WIFEXITED w then
     (do jobs <- gets job_list;
      when v (printf "sigchld_handler: ";;
              printf (job_tag jobs p +:+ " terminates OK (status "
                      +:+ dec (WSTOPSIG w) +:+ ")" +:+ nl)));;
     do _r <- deletejob p; ret tt
   else ret tt);;
  (if WIFSIGNALED w then
     (do jobs <- gets job_list;
      printf (job_tag jobs p +:+ " terminated by signal " +:+ dec (WTERMSIG w) +:+ nl));;
     do _r <- deletejob p; ret tt
   else ret tt);;
  (if WIFSTOPPED w then
     (do jobs <- gets job_list;
      printf (job_tag jobs p +:+ " stopped by signal " +:+ dec (WSTOPSIG w) +:+ nl));;
     do _r <- stopjob p; ret tt
   else ret tt);;
  (if WIFCONTINUED w then
     do jobs <- gets job_list;
     when v (printf (job_tag jobs p +:+ " restarted by signal "
                     +:+ dec (signum SIGCONT) +:+ nl))
   else ret tt);;
  Sigprocmask_SETMASK prev.

(** [while ((pid = waitpid(-1, &status, WNOHANG|WUNTRACED|WCONTINUED)) > 0)]:
    [avail] lists the status changes the kernel has to report, in the
    order [waitpid] returns them; on an empty list it returns no pid. *)
Fixpoint reap_all (avail : list (Z * wstatus)) : M unit :=
  match avail with
  | (p, w) :: rest => if p >? 0 then reap p w;; reap_all rest else ret tt
  | [] => ret tt
  end.

(** sigchld_handler *)
Definition sigchld_handler (avail : list (Z * wstatus)) : M unit :=
  do v <- gets verbose;
  when v (printf ("sigchld_handler: entering" +:+ nl));;
  reap_all avail;;
  when v (printf ("sigchld_handler: exiting" +:+ nl)).

(** sigint_handler - catch ctrl-c and send it along to the foreground job *)
Definition sigint_handler : M unit :=
  do v <- gets verbose;
  when v (printf ("sigint_handler: entering" +:+ nl));;
  do jobs <- gets job_list;
  let p := fgpid jobs in
  (if p >? 0 then
     Kill (- p) SIGINT;;
     when v (printf ("sigint_handler: " +:+ job_tag jobs p +:+ " killed " +:+ nl))
   else ret tt);;
  when v (printf ("sigint_handler: exiting" +:+ nl)).

(** sigtstp_handler - catch ctrl-z and suspend the foreground job *)
Definition sigtstp_handler : M unit :=
  do v <- gets verbose;
  when v (printf ("sigtstp_handler: entering" +:+ nl));;
  do jobs <- gets job_list;
  let p := fgpid jobs in
  (if p >? 0 then
     Kill (- p) SIGTSTP;;
     when v (printf ("sigtstp_handler: " +:+ job_tag jobs p +:+ " stopped " +:+ nl))
   else ret tt);;
  when v (printf ("sigtstp_handler: entering" +:+ nl)).

(** sigquit_handler - terminate the shell *)
Definition sigquit_handler : M unit :=
  do v <- gets verbose;
  when v (printf ("sigquit_handler: entering" +:+ nl));;
  printf ("Terminating after receipt of SIGQUIT signal" +:+ nl);;
  exit 1.

(** A signal reaching the shell, with what the kernel holds for it. *)
Inductive delivery :=
| Sigchld (avail : list (Z * wstatus))
| Sigint
| Sigtstp
| Sigquit.

Definition signal_of (d : delivery) : signal :=
  match d with
  | Sigchld _ => SIGCHLD
  | Sigint => SIGINT
  | Sigtstp => SIGTSTP
  | Sigquit => SIGQUIT
  end.

Definition handle (d : delivery) : M unit :=
  match d with
  | Sigchld avail => sigchld_handler avail
  | Sigint => sigint_handler
  | Sigtstp => sigtstp_handler
  | Sigquit => sigquit_handler
  end.

(** ** eval - Evaluate the command line that the user has just typed in *)

(** When a signal is raised, relative to the waiting loop
    [while (fgpid(job_list)) Sigsuspend(&prev);]: in the window between a
    test that found a foreground job and the call of [Sigsuspend], or
    while the evaluator is suspended. *)
Inductive moment := Window | Asleep.

(** The waiting loop.  [committed] tells that the test has found a
    foreground job and [Sigsuspend] has not been entered yet.  A signal
    raised in the window runs its handler at once unless the current mask
    blocks it; a blocked one stays pending until [Sigsuspend] installs
    [prev], and then ends the suspension.  A signal both masks block is
    not delivered during the loop.  With nothing left to deliver the
    evaluator stays suspended. *)
Fixpoint wait_fg (prev : sigset) (committed : bool)
    (sched : list (moment * delivery)) : M unit :=
  do jobs <- gets job_list;
  if negb committed && (fgpid jobs =? 0) then ret tt
  else
    match sched with
    | [] => fun s => Blocked s
    | (Window, d) :: rest =>
        do mask <- gets sigmask;
        if negb (sigismember mask (signal_of d)) then
          handle d;; wait_fg prev true rest
        else if negb (sigismember prev (signal_of d)) then
          handle d;; wait_fg prev false rest
        else wait_fg prev true rest
    | (Asleep, d) :: rest =>
        if negb (sigismember prev (signal_of d)) then
          handle d;; wait_fg prev false rest
        else wait_fg prev true rest
    end.

(** What the surroundings contribute to one evaluation. *)
Record environment := Env {
  fork_pid : Z;   (* the value fork returns in the parent *)
  junk : Z;       (* the initial content of the local pid of execbg and execfg *)
  schedule : list (moment * delivery); (* signals raised during the waiting loop *)
  reaped : option wstatus
    (* for a background command: the status the child has changed to by
       the time the mask is restored, if it has *)
}.

(** A background child that has changed status while [eval] had the
    signals blocked: its SIGCHLD is pending, and is delivered as soon as
    the mask [prev] is restored, unless [prev] blocks it too.  The handler
    then runs before the acknowledgement is printed. *)
Definition reap_early (prev : sigset) (child : Z) (early : option wstatus)
    : M unit :=
  match early with
  | Some w =>
      if sigismember prev SIGCHLD then ret tt
      else handle (Sigchld [(child, w)])
  | None => ret tt
  end.

Definition is_some {A} (o : option A) : bool :=
  match o with Some _ => true | None => false end.

(** [eval], as the shell process runs it.  The branch taken by the forked
    child (its own process group, the unblocked mask, redirection,
    [execve] or the command-not-found message and [exit]) belongs to
    another process; of the fork the shell keeps the pid it returns.
    Once the mask is restored the status changes of a foreground child
    reach the shell in the waiting loop ([schedule]); one of a background
    child that is pending by then is handled before the acknowledgement
    ([reaped]). *)
Definition eval (line : string) (env : environment) : M unit :=
  let mask := [SIGCHLD; SIGINT; SIGTSTP; SIGQUIT] in
  do r <- parseline line;
  match r with
  | ParseError _ => ret tt
  | Parsed bg tok =>
      match argv tok with
      | [] => ret tt
      | _ :: _ =>
          when (is_some (infile tok)) (emit (DupSave 0));;
          when (is_some (outfile tok)) (emit (DupSave 1));;
          let st := if bg =? 0 then FG else BG in
          do prev <- Sigprocmask_BLOCK mask;
          do b <- builtin_command tok (junk env);
          (if b =? 0 then
             let child := fork_pid env in
             emit (ForkCall child);;
             do _r <- addjob child st line;
             Sigprocmask_SETMASK prev;;
             if bg =? 0 then wait_fg prev false (schedule env)
             else
               reap_early prev child (reaped env);;
               do jobs <- gets job_list;
               printf (bg_line (pid2jid jobs child) child line)
           else Sigprocmask_SETMASK prev);;
          when (is_some (infile tok)) (emit (DupRestore 0));;
          when (is_some (outfile tok)) (emit (DupRestore 1))
      end
  end.

(** ** The read/eval loop

    What reaches the shell between two prompts: a command line, or a
    signal raised while [main] waits for input, which runs its handler
    unless the mask in force blocks it.  The loop is taken from the call
    of [eval] on; the line has lost its newline already. *)
Inductive input :=
| Line (line : string) (env : environment)
| Signal (d : delivery).

Fixpoint shell_run (inputs : list input) : M unit :=
  match inputs with
  | [] => ret tt
  | Line line env :: rest => eval line env;; shell_run rest
  | Signal d :: rest =>
      do mask <- gets sigmask;
      (if sigismember mask (signal_of d) then ret tt else handle d);;
      shell_run rest
  end.

(** The shell as [main] sets it up, before the first prompt. *)
Definition startup (v : bool) : shell :=
  {| job_list := initjobs; nextjid := 1; verbose := v; sigmask := []; trace := [] |}.

(** ** Signal-safe output: the SIO routines *)

(** A [char] array is the list of its characters up to the terminator. *)
Definition to_char (x : Z) : ascii := ascii_of_nat (Z.to_nat (x mod 256)).

(** sio_reverse - Reverse a string (from K&R): [s[i]] and [s[j]] are
    swapped while [i < j], [i] going up from 0 and [j] down from
    [strlen(s)-1].  The indices meet after at most half the length. *)
Fixpoint sio_reverse_loop (fuel : nat) (s : list ascii) (i j : Z) : list ascii :=
  match fuel with
  | O => s
  | S fuel =>
      if i <? j then
        let c := nth (Z.to_nat i) s zero in
        let s := <[Z.to_nat i := nth (Z.to_nat j) s zero]> s in
        let s := <[Z.to_nat j := c]> s in
        sio_reverse_loop fuel s (i + 1) (j - 1)
      else s
  end.

Definition sio_reverse (s : list ascii) : list ascii :=
  sio_reverse_loop (length s) s 0 (Z.of_nat (length s) - 1).

(** The digit written for the remainder [c] in [sio_ltoa]. *)
Definition ltoa_digit (c : Z) : ascii :=
  to_char (if c <? 10 then c + 48 else c - 10 + 97).

(** The [do ... while ((v /= b) > 0)] loop of [sio_ltoa]; [s] holds the
    characters written so far.  C division truncates and the remainder
    has the sign of [v]. *)
Fixpoint sio_ltoa_loop (fuel : nat) (v b : Z) (s : list ascii) : list ascii :=
  match fuel with
  | O => s
  | S fuel =>
      let s := s ++ [ltoa_digit (Z.rem v b)] in
      let v := Z.quot v b in
      if v >? 0 then sio_ltoa_loop fuel v b s else s
  end.

(** sio_ltoa - Convert long to base b string (from K&R).  With a base of
    2 or more the loop runs at most once per binary digit of [v]. *)
Definition sio_ltoa (v b : Z) : list ascii :=
  sio_reverse (sio_ltoa_loop (S (Z.to_nat (Z.log2 v))) v b []).

(** sio_strlen - Return length of string (from K&R) *)
Definition sio_strlen (s : list ascii) : Z := Z.of_nat (length s).

(** sio_puts - Put string *)
Definition sio_puts (s : list ascii) : M unit :=
  printf (string_of_list_ascii s).

(** sio_putl - Put long *)
Definition sio_putl (v : Z) : M unit := sio_puts (sio_ltoa v 10).

(** sio_error - Put error message and exit *)
Definition sio_error {A} (s : list ascii) : M A := sio_puts s;; exit 1.

(** ** main - The shell's main routine

    The routine from the read/eval loop on: the options are parsed
    ([emit_prompt], and [verbose] in the state) and the handlers are
    installed.  Standard input is the text still to be read. *)

Definition prompt : string := "tsh> ".

(** [fgets(cmdline, MAXLINE, stdin)] reading at most [n] characters: the
    characters stored, the text left, and whether the end of the input
    was met.  Reading stops behind a newline. *)
Fixpoint fgets (n : nat) (input : string) : string * string * bool :=
  match n with
  | O => (EmptyString, input, false)
  | S n =>
      match input with
      | EmptyString => (EmptyString, EmptyString, true)
      | String c rest =>
          if Ascii.eqb c lf then (String c EmptyString, rest, false)
          else let '(line, more, eof) := fgets n rest in (String c line, more, eof)
      end
  end.

(** The C string a buffer holds: its characters up to the first NUL. *)
Fixpoint c_str (buf : string) : string :=
  match buf with
  | EmptyString => EmptyString
  | String c rest =>
      if Ascii.eqb c zero then EmptyString else String c (c_str rest)
  end.

(** The string without its last character. *)
Fixpoint drop_last (s : string) : string :=
  match s with
  | EmptyString => EmptyString
  | String c EmptyString => EmptyString
  | String c rest => String c (drop_last rest)
  end.

(** [cmdline[strlen(cmdline)-1] = 0], and the C string [eval] is then
    given: what was read is cut at its first NUL, and the last character
    before is dropped.  When what was read starts with a NUL the write
    lands before the array; the line is then taken as the empty one. *)
Definition chop (cmdline : string) : string := drop_last (c_str cmdline).

(** The [while (1)] loop; [envs k] is what the surroundings contribute to
    the evaluation number [k].  Every round that goes on has read at
    least one character; [fuel] counts the rounds. *)
Fixpoint main_loop (fuel : nat) (emit_prompt : bool)
    (envs : nat -> environment) (k : nat) (input : string) : M unit :=
  match fuel with
  | O => ret tt
  | S fuel =>
      when emit_prompt (printf prompt);;
      let '(cmdline, more, eof) := fgets (Z.to_nat (MAXLINE - 1)) input in
      if eof then printf nl;; exit 0
      else
        eval (chop cmdline) (envs k);;
        main_loop fuel emit_prompt envs (S k) more
  end.

Definition main (emit_prompt : bool) (envs : nat -> environment)
    (input : string) : M unit :=
  main_loop (S (String.length input)) emit_prompt envs 0 input.

(** * Vocabulary of the statements *)

(** ** The job table *)

Definition empty_slot : job_t :=
  {| pid := 0; jid := 0; state := UNDEF; cmdline := "" |}.

(** The table holds its full capacity when no slot has pid 0. *)
Definition table_full (jobs : list job_t) : Prop :=
  Forall (fun j => pid j <> 0) jobs.

(** The number of jobs in the foreground state. *)
Definition foreground_jobs (s : shell) : nat :=
  length (filter (fun j => state j = FG) (job_list s)).


(** The state in which a piece of shell code leaves the shell. *)
Definition final {A} (o : outcome A) : shell :=
  match o with
  | Ret _ s | Halt _ s | Blocked s => s
  end.

(** Adding, one after the other, background jobs with the given pids. *)
Fixpoint add_jobs (pids : list Z) (s : shell) : shell :=
  match pids with
  | [] => s
  | p :: rest => add_jobs rest (final (addjob p BG EmptyString s))
  end.

(** ** What the code prints and does *)

Definition too_many : string := "Tried to create too many jobs" +:+ nl.

Definition added_line (j : job_t) : string :=
  "Added job [" +:+ dec (jid j) +:+ "] " +:+ dec (pid j) +:+ " " +:+ cmdline j +:+ nl.


Definition eval_mask : sigset := [SIGCHLD; SIGINT; SIGTSTP; SIGQUIT].

(** Descriptor events of one evaluation: saving, redirecting, restoring. *)
Definition saved (tok : cmdline_tokens) : list event :=
  (if is_some (infile tok) then [DupSave 0] else [])
  ++ (if is_some (outfile tok) then [DupSave 1] else []).

Definition redirected (tok : cmdline_tokens) : list event :=
  match infile tok with Some f => [OpenDup f 0] | None => [] end
  ++ match outfile tok with Some f => [OpenDup f 1] | None => [] end.

Definition restored (tok : cmdline_tokens) : list event :=
  (if is_some (infile tok) then [DupRestore 0] else [])
  ++ (if is_some (outfile tok) then [DupRestore 1] else []).

(** A line is an external command when [builtin_command] returns 0 on it. *)
Definition external (tok : cmdline_tokens) : Prop :=
  builtins tok = BUILTIN_NONE /\ argv tok <> [] /\ hd EmptyString (argv tok) <> "&".

(** What [eval] still does once [addjob] has returned, for an external
    command: restore the mask, wait or acknowledge, restore descriptors. *)
Definition after_addjob (line : string) (env : environment) (bg : Z)
    (tok : cmdline_tokens) (prev : sigset) : M unit :=
  Sigprocmask_SETMASK prev;;
  (if bg =? 0 then wait_fg prev false (schedule env)
   else reap_early prev (fork_pid env) (reaped env);;
        do jobs <- gets job_list;
        printf (bg_line (pid2jid jobs (fork_pid env)) (fork_pid env) line));;
  modify (fun s' => with_trace (trace s' ++ restored tok) s').

(** The outcome of the tokenizing loop on a line. *)
Definition scan_line (line : string) : option (string + scan_acc) :=
  scan (S (String.length line)) line (Acc [] None None ST_NORMAL).

(** The job an argument of bg or fg leads to: the job whose pid the
    first conversion yields, else the job whose job id follows the first
    character. *)
Definition target (jobs : list job_t) (arg : string) (junk : Z)
    : option (nat * job_t) :=
  match getjobpid jobs (match sscanf_d arg with Some v => v | None => junk end) with
  | Some found => Some found
  | None =>
      match sscanf_c_d arg with
      | Some (_, n) => getjobjid jobs n
      | None => None
      end
  end.

(** ** The words of the specification *)

(** The effect of a status change.  The first slot that holds process
    [p] is rewritten by [f]; a table without [p] is left alone. *)
Fixpoint update_job (p : Z) (f : job_t -> job_t) (jobs : list job_t)
    : list job_t :=
  match jobs with
  | [] => []
  | j :: rest =>
      if decide (pid j = p) then f j :: rest else j :: update_job p f rest
  end.

(** Removing the job of [p] clears its slot. *)
Definition remove_job (p : Z) : list job_t -> list job_t :=
  update_job p (fun _ => empty_slot).

(** Stopping the job of [p] changes its state only. *)
Definition stop_job (p : Z) : list job_t -> list job_t :=
  update_job p (fun j => {| pid := pid j; jid := jid j; state := ST;
                            cmdline := cmdline j |}).

(** Exited or killed by a signal: remove the job; stopped by a signal: set
    its state to Stopped; continued: no change. *)
Definition status_change (jobs : list job_t) (pw : Z * wstatus) : list job_t :=
  match pw.2 with
  | WExited _ | WSignaled _ => remove_job pw.1 jobs
  | WStopped _ => stop_job pw.1 jobs
  | WContinued => jobs
  end.


(** The target of bg and fg.  A numeric argument is a non-empty string
    of decimal digits. *)
Fixpoint all_digits (s : string) : bool :=
  match s with
  | EmptyString => true
  | String c rest => is_some (digit c) && all_digits rest
  end.

Definition numeral (s : string) : option Z :=
  match s with
  | EmptyString => None
  | String _ _ => if all_digits s then Some (digits s 0) else None
  end.

(** The argument names a tracked job: it is the pid of one, or the job-id
    marker followed by the job id of one. *)
Definition resolves (jobs : list job_t) (arg : string) : Prop :=
  (exists p j, numeral arg = Some p /\ 0 < p /\ j ∈ jobs /\ pid j = p)
  \/ (exists rest n j,
        arg = String "%" rest /\ numeral rest = Some n /\ 0 < n
        /\ j ∈ jobs /\ jid j = n).

(** The waiting loop with the check made under the blocked mask: every
    scheduled signal is held back by [mask] and let through by [prev]. *)
Definition held_until_suspend (mask prev : sigset)
    (sched : list (moment * delivery)) : Prop :=
  Forall (fun md : moment * delivery =>
            sigismember mask (signal_of md.2) = true
            /\ sigismember prev (signal_of md.2) = false) sched.

(** ** Scenarios

    Concrete shells and inputs at which the statements are exercised. *)

(** An evaluation during which no signal is raised. *)
Definition quiet (child : Z) : environment :=
  {| fork_pid := child; junk := 0; schedule := []; reaped := None |}.

(** The state the read/eval loop reaches from start-up. *)
Definition state_after (inputs : list input) : shell :=
  final (shell_run inputs (startup false)).

(** One background command per pid. *)
Definition background_lines (pids : list Z) : list input :=
  (fun p => Line "/bin/sleep 60 &" (quiet p)) <$> pids.

(** Sixteen background jobs, pids 101 to 116: the table is full. *)
Definition crowded : shell :=
  state_after (background_lines (Z.of_nat <$> seq 101 16)).



(** A foreground command stopped from the keyboard: the stop signal
    reaches the shell, then the notification that the child has stopped. *)
Definition suspended : shell :=
  state_after
    [Line "/bin/sleep 60"
       {| fork_pid := 100; junk := 0;
          schedule := [(Asleep, Sigtstp); (Asleep, Sigchld [(100, WStopped 20)])];
          reaped := None |}].

(** Two background jobs, pids 100 and 101. *)
Definition two_jobs : list input :=
  [Line "/bin/sleep 100 &" (quiet 100); Line "/bin/sleep 200 &" (quiet 101)].

(** A child that exits in the window between the test of the waiting
    loop and the call of [Sigsuspend]. *)
Definition early_exit : environment :=
  {| fork_pid := 100; junk := 0;
     schedule := [(Window, Sigchld [(100, WExited 0)])]; reaped := None |}.

(** The same exit, notified while the evaluator is suspended. *)
Definition late_exit : environment :=
  {| fork_pid := 100; junk := 0;
     schedule := [(Asleep, Sigchld [(100, WExited 0)])]; reaped := None |}.


(** ** Well-formed tables and what code keeps *)

(** A slot is clear, or holds a job with a positive pid, a positive job
    id and a state. *)
Definition wf_slot (j : job_t) : Prop :=
  j = empty_slot \/ (1 <= pid j /\ 1 <= jid j /\ state j <> UNDEF).

(** The table has its [MAXJOBS] slots, each of them well formed, and the
    job-id counter is positive. *)
Definition wf (s : shell) : Prop :=
  length (job_list s) = Z.to_nat MAXJOBS
  /\ Forall wf_slot (job_list s)
  /\ 1 <= nextjid s.

(** Code keeps a property of the shell state when, started in a state
    that has it, it ends in one that has it, however it ends. *)
Definition keeps {A} (I : shell -> Prop) (c : M A) : Prop :=
  forall s, I s -> I (final (c s)).

(** The pid is held by some slot of the table. *)
Definition tracked (jobs : list job_t) (p : Z) : Prop :=
  exists j, j ∈ jobs /\ pid j = p.

(** The text [listjobs] writes for one job. *)
Definition job_line (j : job_t) : list event :=
  [ Output ("[" +:+ dec (jid j) +:+ "] (" +:+ dec (pid j) +:+ ") ");
    Output (match state j with
            | FG => "Foreground "
            | ST => "Stopped    "
            | _ => "Running    "
            end);
    Output (cmdline j +:+ nl) ].

(** The read/eval loop on lines that are already split: prompt, evaluate,
    and at the end of the input a newline and the exit status 0. *)
Fixpoint run_lines (emit_prompt : bool) (envs : nat -> environment) (k : nat)
    (lines : list string) : M unit :=
  match lines with
  | [] => when emit_prompt (printf prompt);; printf nl;; exit 0
  | line :: rest =>
      when emit_prompt (printf prompt);;
      eval line (envs k);;
      run_lines emit_prompt envs (S k) rest
  end.

(** The input made of the given lines, each ended by a newline. *)
Fixpoint unlines (lines : list string) : string :=
  match lines with
  | [] => EmptyString
  | line :: rest => line +:+ nl +:+ unlines rest
  end.

(** The text holds no newline. *)
Fixpoint one_line (text : string) : bool :=
  match text with
  | EmptyString => true
  | String c rest => negb (Ascii.eqb c lf) && one_line rest
  end.

(** The value of a string of decimal digits written least significant
    digit first. *)
Fixpoint le_value (s : list ascii) : Z :=
  match s with
  | [] => 0
  | c :: rest => (Z.of_nat (nat_of_ascii c) - 48) + 10 * le_value rest
  end.

(** A plain word: not empty, free of white space, and its first character
    is neither a redirection marker nor a quote. *)
Fixpoint no_delim (w : string) : bool :=
  match w with
  | EmptyString => true
  | String c rest => negb (is_delim c) && no_delim rest
  end.

Definition plain_word (w : string) : bool :=
  match w with
  | EmptyString => false
  | String c _ =>
      no_delim w
      && negb (Ascii.eqb c "<") && negb (Ascii.eqb c ">")
      && negb (Ascii.eqb c squote) && negb (Ascii.eqb c dquote)
  end.

(** The words separated by single spaces. *)
Fixpoint unwords (ws : list string) : string :=
  match ws with
  | [] => EmptyString
  | [w] => w
  | w :: rest => w +:+ " " +:+ unwords rest
  end.


(** Code gives the signal mask back: when it returns, the mask is the
    one it was started with. *)
Definition restores {A} (c : M A) : Prop :=
  forall s a s', c s = Ret a s' -> sigmask s' = sigmask s.

(** The signals the shell has sent, in order, each with its target. *)
Definition signals_sent (t : list event) : list (Z * signal) :=
  omap (fun e => match e with KillCall p sg => Some (p, sg) | _ => None end) t.


(** The character does not occur in the text. *)
Fixpoint lacks (q : ascii) (text : string) : bool :=
  match text with
  | EmptyString => true
  | String c rest => negb (Ascii.eqb c q) && lacks q rest
  end.

(** * Properties *)

(** ** Running monadic code *)

Ltac run1 :=
  cbv beta iota delta
    [bind ret gets modify emit printf Kill when exit
     Sigprocmask_BLOCK Sigprocmask_SETMASK redirect is_some
     with_jobs with_nextjid with_sigmask with_trace];
  cbn [job_list nextjid verbose sigmask trace];
  change (0 =? 0) with true;
  change (2 =? 2) with true;
  change (1 =? 0) with false;
  cbv beta iota.

Ltac run := run1; repeat (progress run1).

(** Traces are compared as right-nested appends. *)
Ltac flatten_trace := rewrite <- ?app_assoc; cbn [app].

(** ** The search loop *)

Lemma first_slot_none (P : job_t -> Prop) `{!∀ j, Decision (P j)} jobs :
  Forall (fun j => ¬ P j) jobs -> first_slot P jobs = None.
Proof. intros Hnone. unfold first_slot. by apply list_find_None. Qed.

Lemma first_slot_some (P : job_t -> Prop) `{!∀ j, Decision (P j)} jobs :
  Exists P jobs ->
  exists i j, first_slot P jobs = Some (i, j) /\ jobs !! i = Some j /\ P j.
Proof.
  intros Hex. unfold first_slot.
  destruct (list_find P jobs) as [[i j]|] eqn:E.
  - exists i, j. apply list_find_Some in E as (? & ? & ?). auto.
  - apply list_find_None in E. apply Exists_exists in Hex as (j & Hin & HP).
    rewrite Forall_forall in E. exfalso. eapply E; eauto.
Qed.

(** ** Non-positive pids *)

(** C10.  With a pid below 1, [addjob] and [deletejob] return 0 and leave
    the whole shell state as it was, [getjobpid] finds no job and
    [pid2jid] is 0; [pid2jid] is also 0 for a positive pid that no slot of
    the table holds. *)
Theorem nonpositive_pid_benign
    (p q : Z) (st : job_state) (cmd : string) (s : shell) :
  p < 1 ->
  0 < q ->
  Forall (fun j => pid j <> q) (job_list s) ->
  addjob p st cmd s = Ret 0 s
  /\ deletejob p s = Ret 0 s
  /\ getjobpid (job_list s) p = None
  /\ pid2jid (job_list s) p = 0
  /\ pid2jid (job_list s) q = 0.
Proof.
  intros Hp Hq Habsent.
  assert (Hlt : (p <? 1) = true) by (apply Z.ltb_lt; lia).
  unfold addjob, deletejob, getjobpid, pid2jid. rewrite Hlt.
  repeat split; try reflexivity.
  destruct (q <? 1); [reflexivity|].
  by rewrite first_slot_none.
Qed.

Lemma nonpositive_pid_benign_witness :
  addjob 0 BG "ls &" (startup false) = Ret 0 (startup false)
  /\ deletejob 0 (startup false) = Ret 0 (startup false)
  /\ getjobpid (job_list (startup false)) 0 = None
  /\ pid2jid (job_list (startup false)) 0 = 0
  /\ pid2jid (job_list (startup false)) 5 = 0.
Proof.
  apply (nonpositive_pid_benign 0 5 BG "ls &" (startup false)).
  - lia.
  - lia.
  - vm_compute. repeat constructor; discriminate.
Defined.

(** ** Adding a job *)

Lemma addjob_full p st cmd s :
  1 <= p -> table_full (job_list s) ->
  addjob p st cmd s = Ret 0 (with_trace (trace s ++ [Output too_many]) s).
Proof.
  intros Hp Hfull. unfold addjob.
  replace (p <? 1) with false by (symmetry; apply Z.ltb_ge; lia).
  run. rewrite first_slot_none; [by destruct s|].
  eapply Forall_impl; [exact Hfull|]. auto.
Qed.

Lemma addjob_free p st cmd s i j0 :
  1 <= p -> first_slot (fun j => pid j = 0) (job_list s) = Some (i, j0) ->
  addjob p st cmd s =
  Ret 1 {| job_list := <[i := Job p (nextjid s) st cmd]> (job_list s);
           nextjid := if nextjid s + 1 >? MAXJOBS then 1 else nextjid s + 1;
           verbose := verbose s;
           sigmask := sigmask s;
           trace := trace s ++ (if verbose s
                                then [Output (added_line (Job p (nextjid s) st cmd))]
                                else []) |}.
Proof.
  intros Hp Hslot. unfold addjob.
  replace (p <? 1) with false by (symmetry; apply Z.ltb_ge; lia).
  run. rewrite Hslot. run. destruct (verbose s); run.
  - reflexivity.
  - by rewrite app_nil_r.
Qed.

(** What a successful [addjob] has done. *)
Lemma addjob_inv p st cmd s s1 :
  addjob p st cmd s = Ret 1 s1 ->
  1 <= p /\
  exists i j0,
    first_slot (fun j => pid j = 0) (job_list s) = Some (i, j0)
    /\ job_list s1 = <[i := Job p (nextjid s) st cmd]> (job_list s)
    /\ nextjid s1 = (if nextjid s + 1 >? MAXJOBS then 1 else nextjid s + 1).
Proof.
  intros Hadd.
  destruct (Z.ltb_spec p 1) as [Hlt|Hge].
  - unfold addjob in Hadd. apply Z.ltb_lt in Hlt. rewrite Hlt in Hadd. discriminate.
  - split; [exact Hge|].
    destruct (first_slot (fun j => pid j = 0) (job_list s)) as [[i j0]|] eqn:Hslot.
    + rewrite (addjob_free _ _ _ _ _ _ Hge Hslot) in Hadd.
      injection Hadd as <-. exists i, j0. auto.
    + unfold addjob in Hadd.
      replace (p <? 1) with false in Hadd by (symmetry; apply Z.ltb_ge; lia).
      revert Hadd. run. rewrite Hslot. run. discriminate.
Qed.

(** ** Evaluating an external command *)

(** Up to the call of [addjob], an external command only saves and
    redirects descriptors, blocks the signals and forks. *)
Lemma eval_external line env s bg tok :
  parse line = Parsed bg tok ->
  external tok ->
  eval line env s =
  (do _r <- addjob (fork_pid env) (if bg =? 0 then FG else BG) line;
   after_addjob line env bg tok (sigmask s))
    {| job_list := job_list s; nextjid := nextjid s; verbose := verbose s;
       sigmask := sigmask s ++ eval_mask;
       trace := trace s ++ saved tok ++ redirected tok ++ [ForkCall (fork_pid env)] |}.
Proof.
  intros Hparse (Hnone & Hargs & Hamp).
  unfold eval, parseline. rewrite Hparse.
  destruct (argv tok) as [|a0 rest] eqn:Hargv; [done|]. cbn [hd] in *.
  apply String.eqb_neq in Hamp.
  unfold after_addjob, saved, redirected, restored.
  destruct (infile tok) eqn:Hin, (outfile tok) eqn:Hout; run;
    unfold builtin_command; rewrite Hnone, Hin, Hout, Hargv; cbn [hd];
    rewrite Hamp; run; unfold eval_mask; flatten_trace; rewrite ?app_nil_r;
    (destruct (addjob _ _ _ _) as [r s2|c s2|s2]; [|reflexivity..]);
    (destruct (bg =? 0)); run;
    try (destruct (wait_fg _ _ _ _) as [r' s3|c' s3|s3]; [|reflexivity..]);
    try (destruct (reap_early _ _ _ _) as [r' s3|c' s3|s3]; [|reflexivity..]);
    run; flatten_trace; rewrite ?app_nil_r;
    first [reflexivity | by destruct s3 | by destruct s2].
Qed.

(** The waiting loop returns at once when no job is in the foreground. *)
Lemma wait_fg_no_foreground prev sched s :
  fgpid (job_list s) = 0 -> wait_fg prev false sched s = Ret tt s.
Proof.
  intros Hfg. destruct sched as [|[[] d] rest]; cbn [wait_fg]; run;
    rewrite Hfg; reflexivity.
Qed.

(** ** A status change of a pid the table does not hold *)

Lemma untracked_forall jobs p :
  Forall (fun j => pid j <> p) jobs -> ¬ tracked jobs p.
Proof.
  intros Hall (j & Hin & Hj). rewrite Forall_forall in Hall. by apply (Hall j).
Qed.

Lemma startup_untracked v p : p <> 0 -> ¬ tracked (job_list (startup v)) p.
Proof.
  intros Hp. apply untracked_forall. cbn. repeat constructor; cbn; congruence.
Qed.


Lemma deletejob_untracked p s :
  ¬ tracked (job_list s) p -> deletejob p s = Ret 0 s.
Proof.
  intros Hnew. unfold deletejob. destruct (p <? 1); [reflexivity|]. run.
  rewrite first_slot_none; [reflexivity|].
  apply Forall_forall. intros j Hin Hj. apply Hnew. by exists j.
Qed.

Lemma stopjob_untracked p s :
  ¬ tracked (job_list s) p -> stopjob p s = Ret 0 s.
Proof.
  intros Hnew. unfold stopjob. destruct (p <? 1); [reflexivity|]. run.
  rewrite first_slot_none; [reflexivity|].
  apply Forall_forall. intros j Hin Hj. apply Hnew. by exists j.
Qed.

(** The handler that reaps such a pid prints its lines and leaves the
    shell as it was. *)
Lemma sigchld_handler_untracked p w s :
  ¬ tracked (job_list s) p ->
  exists notes,
    sigchld_handler [(p, w)] s = Ret tt (with_trace (trace s ++ notes) s)
    /\ signals_sent notes = [].
Proof.
  intros Hnew. destruct s as [jobs n v m t]. cbn [job_list] in Hnew.
  unfold sigchld_handler. cbn [reap_all]. destruct (p >? 0).
  - unfold reap.
    destruct w; cbn [WIFEXITED WIFSIGNALED WIFSTOPPED WIFCONTINUED];
      destruct v; run;
      rewrite ?deletejob_untracked, ?stopjob_untracked by done; run;
      flatten_trace;
      first [ by (exists []; rewrite app_nil_r)
            | eexists; split; reflexivity ].
  - destruct v; run; flatten_trace;
      first [ by (exists []; rewrite app_nil_r)
            | eexists; split; reflexivity ].
Qed.

Lemma reap_early_untracked prev p early s :
  ¬ tracked (job_list s) p ->
  exists notes,
    reap_early prev p early s = Ret tt (with_trace (trace s ++ notes) s)
    /\ signals_sent notes = []
    /\ (early = None -> notes = []).
Proof.
  intros Hnew. unfold reap_early.
  destruct early as [w|]; [destruct (sigismember prev SIGCHLD)|].
  - exists []. rewrite app_nil_r. by destruct s.
  - cbn [handle]. destruct (sigchld_handler_untracked p w s Hnew) as (notes & -> & Hn).
    exists notes. repeat split; [done|discriminate].
  - exists []. rewrite app_nil_r. by destruct s.
Qed.

(** C6.  Adding a job with a positive pid to a table that holds its full
    capacity returns 0 without ending the shell, leaves the table and the
    job-id counter as they were and prints the too-many-jobs message.  The
    evaluation of the external command that led there has forked the child
    all the same and goes on as after any add, from a table without an
    entry for the child; with nothing to wait for, and no status change
    pending for a pid the table holds, it returns to the read loop.
    Adding to a table with a free slot returns 1 and puts the job, with
    the next job id, in the first free slot. *)
Theorem addjob_capacity
    (p : Z) (st : job_state) (cmd : string) (sf s : shell)
    (line : string) (env : environment) (bg : Z) (tok : cmdline_tokens) :
  1 <= p ->
  table_full (job_list sf) ->
  ~ table_full (job_list s) ->
  parse line = Parsed bg tok ->
  external tok ->
  1 <= fork_pid env ->
  addjob p st cmd sf = Ret 0 (with_trace (trace sf ++ [Output too_many]) sf)
  /\ eval line env sf =
     after_addjob line env bg tok (sigmask sf)
       {| job_list := job_list sf; nextjid := nextjid sf; verbose := verbose sf;
          sigmask := sigmask sf ++ eval_mask;
          trace := trace sf ++ saved tok ++ redirected tok
                   ++ [ForkCall (fork_pid env); Output too_many] |}
  /\ ((bg = 0 -> fgpid (job_list sf) = 0) ->
      (bg <> 0 ->
       reaped env = None \/ ¬ tracked (job_list sf) (fork_pid env)) ->
      exists s' post,
        eval line env sf = Ret tt s'
        /\ job_list s' = job_list sf
        /\ nextjid s' = nextjid sf
        /\ trace s' = trace sf ++ saved tok ++ redirected tok
                      ++ [ForkCall (fork_pid env); Output too_many] ++ post)
  /\ (exists i j0 s',
        addjob p st cmd s = Ret 1 s'
        /\ job_list s !! i = Some j0 /\ pid j0 = 0
        /\ (forall k j, (k < i)%nat -> job_list s !! k = Some j -> pid j <> 0)
        /\ job_list s' = <[i := Job p (nextjid s) st cmd]> (job_list s)
        /\ job_list s' !! i = Some (Job p (nextjid s) st cmd)).
Proof.
  intros Hp Hfull Hfree Hparse Hext Hchild.
  assert (Heval : eval line env sf =
     after_addjob line env bg tok (sigmask sf)
       {| job_list := job_list sf; nextjid := nextjid sf; verbose := verbose sf;
          sigmask := sigmask sf ++ eval_mask;
          trace := trace sf ++ saved tok ++ redirected tok
                   ++ [ForkCall (fork_pid env); Output too_many] |}).
  { rewrite (eval_external _ _ _ _ _ Hparse Hext).
    unfold bind at 1. rewrite addjob_full by done.
    unfold with_trace. cbn [job_list nextjid verbose sigmask trace].
    by rewrite <- !app_assoc. }
  split; [by apply addjob_full|]. split; [exact Heval|]. split.
  - intros Hfg Hearly. rewrite Heval. unfold after_addjob. run.
    destruct (Z.eqb_spec bg 0) as [Hbg|Hbg].
    + rewrite wait_fg_no_foreground by (by apply Hfg).
      eexists _, (restored tok). cbn [job_list nextjid trace].
      repeat split. by rewrite <- ?app_assoc.
    + match goal with
      | |- context [reap_early ?prev ?c ?e ?st] =>
          assert (Hreap : exists notes,
                    reap_early prev c e st
                    = Ret tt (with_trace (trace st ++ notes) st))
      end.
      { destruct (Hearly Hbg) as [Hnone|Hnew].
        - rewrite Hnone. exists []. cbn [reap_early trace]. run.
          by rewrite app_nil_r.
        - match goal with
          | |- context [reap_early ?prev ?c ?e ?st] =>
              destruct (reap_early_untracked prev c e st Hnew) as (notes & Hr & _)
          end.
          by exists notes. }
      destruct Hreap as (notes & ->). run.
      eexists _, (notes ++ _ :: restored tok). cbn [job_list nextjid trace].
      repeat split. flatten_trace. by rewrite <- ?app_assoc.
  - assert (Hex : Exists (fun j => pid j = 0) (job_list s)).
    { apply not_Forall_Exists in Hfree; [|intros j; apply _].
      eapply Exists_impl; [exact Hfree|]. intros j Hj. cbn in Hj.
      destruct (decide (pid j = 0)); [done|]. by destruct Hj. }
    destruct (first_slot_some (fun j => pid j = 0) _ Hex)
      as (i & j0 & Hslot & Hlook & Hzero).
    eexists i, j0, _. split; [by apply (addjob_free _ _ _ _ i j0)|].
    cbn [job_list]. repeat split; try done.
    + intros k j Hk Hj. unfold first_slot in Hslot.
      apply list_find_Some in Hslot as (_ & _ & Hbefore). by eapply Hbefore.
    + apply list_lookup_insert_eq. by eapply lookup_lt_Some.
Qed.

Lemma crowded_full : table_full (job_list crowded).
Proof. vm_compute. repeat constructor; discriminate. Defined.

Lemma addjob_capacity_witness :
  table_full (job_list crowded)
  /\ ~ table_full (job_list (startup false))
  /\ parse "/bin/ls &" = Parsed 1 (Tokens ["/bin/ls"] None None BUILTIN_NONE)
  /\ addjob 200 BG "/bin/ls &" crowded
     = Ret 0 (with_trace (trace crowded ++ [Output too_many]) crowded)
  /\ (exists s' post,
        eval "/bin/ls &" (quiet 200) crowded = Ret tt s'
        /\ job_list s' = job_list crowded
        /\ nextjid s' = nextjid crowded
        /\ trace s' = trace crowded ++ []
                      ++ [ForkCall 200; Output too_many] ++ post)
  /\ (exists i j0 s',
        addjob 200 BG "/bin/ls &" (startup false) = Ret 1 s'
        /\ job_list (startup false) !! i = Some j0 /\ pid j0 = 0
        /\ (forall k j, (k < i)%nat ->
              job_list (startup false) !! k = Some j -> pid j <> 0)
        /\ job_list s' = <[i := Job 200 1 BG "/bin/ls &"]> (job_list (startup false))
        /\ job_list s' !! i = Some (Job 200 1 BG "/bin/ls &")).
Proof.
  assert (Hfree : ~ table_full (job_list (startup false))).
  { intros Hfull. vm_compute in Hfull. inversion Hfull as [|? ? Hne _]. by apply Hne. }
  split; [exact crowded_full|]. split; [exact Hfree|]. split; [reflexivity|].
  destruct (addjob_capacity 200 BG "/bin/ls &" crowded (startup false)
              "/bin/ls &" (quiet 200) 1 (Tokens ["/bin/ls"] None None BUILTIN_NONE))
    as (Hadd & _ & Hloop & Hslot).
  - lia.
  - exact crowded_full.
  - exact Hfree.
  - reflexivity.
  - repeat split; discriminate.
  - vm_compute. discriminate.
  - split; [exact Hadd|]. split; [|exact Hslot].
    apply Hloop; [discriminate|]. intros _. by left.
Defined.

(** ** Job ids *)

Lemma maxjid_fold jobs m0 :
  let m := fold_left (fun max j => if jid j >? max then jid j else max) jobs m0 in
  m0 <= m
  /\ Forall (fun j => jid j <= m) jobs
  /\ (m = m0 \/ exists j, j ∈ jobs /\ jid j = m).
Proof.
  revert m0. induction jobs as [|j jobs IH]; intros m0; cbn.
  - repeat split; [lia|constructor|by left].
  - destruct (IH (if jid j >? m0 then jid j else m0)) as (Hle & Hall & Hmax).
    destruct (Z.gtb_spec (jid j) m0) as [Hgt|Hngt].
    + repeat split; [lia| |].
      * constructor; [lia|done].
      * right. destruct Hmax as [->|(j' & Hin & Heq)].
        -- exists j. split; [left|done].
        -- exists j'. split; [by right|done].
    + repeat split; [lia| |].
      * constructor; [lia|done].
      * destruct Hmax as [->|(j' & Hin & Heq)]; [by left|].
        right. exists j'. split; [by right|done].
Qed.

(** [maxjid] is the largest job id in the table, and 0 when no slot has a
    positive one. *)
Lemma maxjid_spec jobs :
  0 <= maxjid jobs
  /\ Forall (fun j => jid j <= maxjid jobs) jobs
  /\ (maxjid jobs = 0 \/ exists j, j ∈ jobs /\ jid j = maxjid jobs).
Proof. apply (maxjid_fold jobs 0). Qed.



(** The first free slot of a table filled from the front. *)
Lemma first_free_slot occ k :
  Forall (fun j => pid j <> 0) occ ->
  first_slot (fun j => pid j = 0) (occ ++ replicate (S k) empty_slot)
  = Some (length occ, empty_slot).
Proof.
  intros Hocc. unfold first_slot. rewrite list_find_app_r.
  - reflexivity.
  - apply list_find_None. eapply Forall_impl; [exact Hocc|]. auto.
Qed.

Lemma add_jobs_fill pids : forall occ k s,
  job_list s = occ ++ replicate k empty_slot ->
  Forall (fun j => pid j <> 0) occ ->
  (length occ + k = Z.to_nat MAXJOBS)%nat ->
  ((0 < k)%nat -> nextjid s = Z.of_nat (length occ) + 1) ->
  (length pids <= k)%nat ->
  Forall (fun p => 1 <= p) pids ->
  job_list (add_jobs pids s)
  = occ ++ imap (fun i p => Job p (Z.of_nat (length occ + i) + 1) BG EmptyString) pids
        ++ replicate (k - length pids) empty_slot.
Proof.
  induction pids as [|p pids IH]; intros occ k s Hjobs Hocc Hcap Hnext Hlen Hpos.
  - cbn. by rewrite Nat.sub_0_r.
  - cbn [length] in Hlen. destruct k as [|k]; [lia|].
    inversion Hpos as [|? ? Hp Hrest]; subst.
    assert (Hslot : first_slot (fun j => pid j = 0) (job_list s)
                    = Some (length occ, empty_slot))
      by (rewrite Hjobs; by apply first_free_slot).
    cbn [add_jobs]. rewrite (addjob_free _ _ _ _ _ _ Hp Hslot). cbn [final].
    rewrite Hnext by lia.
    set (new := Job p (Z.of_nat (length occ) + 1) BG EmptyString).
    rewrite (IH (occ ++ [new]) k).
    + rewrite <- app_assoc. cbn [app length imap]. f_equal. f_equal.
      * unfold new. do 2 f_equal. lia.
      * f_equal. apply imap_ext. intros i q _. cbn.
        rewrite length_app. cbn [length]. do 2 f_equal. lia.
    + cbn [job_list]. rewrite Hjobs.
      rewrite insert_app_r_alt by lia. rewrite Nat.sub_diag. cbn.
      by rewrite <- app_assoc.
    + apply Forall_app. split; [done|]. repeat constructor. cbn. lia.
    + rewrite length_app. cbn [length]. lia.
    + intros Hk. cbn [nextjid]. rewrite length_app. cbn [length].
      unfold MAXJOBS in *.
      replace (Z.of_nat (length occ) + 1 + 1 >? 16) with false
        by (symmetry; rewrite Z.gtb_ltb; apply Z.ltb_ge; lia).
      lia.
    + lia.
    + done.
Qed.

(** From the empty table, with no removal, the adds are given the job
    ids 1, 2, 3 and so on, slot after slot, up to the capacity. *)
Lemma first_adds_count_up pids v :
  (length pids <= Z.to_nat MAXJOBS)%nat ->
  Forall (fun p => 1 <= p) pids ->
  job_list (add_jobs pids (startup v))
  = imap (fun i p => Job p (Z.of_nat i + 1) BG EmptyString) pids
    ++ replicate (Z.to_nat MAXJOBS - length pids) empty_slot.
Proof.
  intros Hlen Hpos.
  by rewrite (add_jobs_fill pids [] (Z.to_nat MAXJOBS) (startup v)).
Qed.




(** ** The child-status handler *)

(** Searching for the first slot of [p] and writing to it is the update
    of the specification. *)
Lemma first_slot_update p f jobs :
  match first_slot (fun j => pid j = p) jobs with
  | Some (i, j) => <[i := f j]> jobs
  | None => jobs
  end = update_job p f jobs.
Proof.
  unfold first_slot. induction jobs as [|j jobs IH]; [reflexivity|].
  cbn [list_find update_job]. destruct (decide (pid j = p)) as [Heq|Hne].
  - reflexivity.
  - rewrite <- IH. destruct (list_find _ jobs) as [[i j']|]; reflexivity.
Qed.

Lemma update_job_length p f jobs :
  length (update_job p f jobs) = length jobs.
Proof.
  induction jobs as [|j jobs IH]; [reflexivity|].
  cbn. destruct (decide (pid j = p)); cbn; congruence.
Qed.

(** Removal takes away exactly one of the slots that hold [p]. *)
Lemma remove_job_count p jobs :
  p <> 0 ->
  length (filter (fun j => pid j = p) (remove_job p jobs))
  = Nat.pred (length (filter (fun j => pid j = p) jobs)).
Proof.
  intros Hp. unfold remove_job.
  induction jobs as [|j jobs IH]; [reflexivity|].
  cbn [update_job]. destruct (decide (pid j = p)) as [Heq|Hne].
  - rewrite (filter_cons_True _ j) by done.
    rewrite filter_cons_False by (cbn; congruence). reflexivity.
  - rewrite !filter_cons_False by done. exact IH.
Qed.

Lemma deletejob_removes p s :
  1 <= p ->
  exists r s', deletejob p s = Ret r s'
    /\ job_list s' = remove_job p (job_list s)
    /\ verbose s' = verbose s /\ sigmask s' = sigmask s /\ trace s' = trace s.
Proof.
  intros Hp. unfold deletejob.
  replace (p <? 1) with false by (symmetry; apply Z.ltb_ge; lia).
  run. unfold remove_job.
  rewrite <- (first_slot_update p (fun _ => empty_slot)).
  destruct (first_slot _ _) as [[i j]|]; run; eexists _, _; split; by eauto.
Qed.

Lemma stopjob_stops p s :
  1 <= p ->
  exists r s', stopjob p s = Ret r s'
    /\ job_list s' = stop_job p (job_list s)
    /\ nextjid s' = nextjid s
    /\ verbose s' = verbose s /\ sigmask s' = sigmask s /\ trace s' = trace s.
Proof.
  intros Hp. unfold stopjob.
  replace (p <? 1) with false by (symmetry; apply Z.ltb_ge; lia).
  run. unfold stop_job.
  rewrite <- (first_slot_update p (fun j => Job (pid j) (jid j) ST (cmdline j))).
  destruct (first_slot _ _) as [[i j]|]; run; eexists _, _; split; by eauto.
Qed.

Lemma reap_effect p w s :
  0 < p ->
  exists s', reap p w s = Ret tt s'
    /\ job_list s' = status_change (job_list s) (p, w)
    /\ verbose s' = verbose s /\ sigmask s' = sigmask s.
Proof.
  intros Hp. assert (Hp1 : 1 <= p) by lia.
  unfold reap, status_change. cbn [fst snd].
  destruct w; cbn [WIFEXITED WIFSIGNALED WIFSTOPPED WIFCONTINUED];
    run; destruct (verbose s) eqn:Hv; run;
    repeat match goal with
      | |- context [deletejob p ?st] =>
          destruct (deletejob_removes p st Hp1) as (? & ? & -> & ? & ? & ? & ?)
      | |- context [stopjob p ?st] =>
          destruct (stopjob_stops p st Hp1) as (? & ? & -> & ? & ? & ? & ? & ?)
      end;
    run; eexists; (split; [reflexivity|]); cbn [job_list verbose sigmask] in *;
    repeat split; congruence.
Qed.

Lemma reap_all_effect avail s :
  Forall (fun pw : Z * wstatus => 0 < pw.1) avail ->
  exists s', reap_all avail s = Ret tt s'
    /\ job_list s' = fold_left status_change avail (job_list s)
    /\ verbose s' = verbose s /\ sigmask s' = sigmask s.
Proof.
  intros Hpos. revert s.
  induction Hpos as [|[p w] avail Hp _ IH]; intros s; cbn [reap_all fold_left].
  - by exists s.
  - cbn [fst] in Hp. replace (p >? 0) with true by (symmetry; apply Z.gtb_lt; lia).
    destruct (reap_effect p w s Hp) as (s1 & Hreap & Hjobs & Hv & Hm).
    destruct (IH s1) as (s2 & Hrest & Hjobs2 & Hv2 & Hm2).
    exists s2. unfold bind. rewrite Hreap, Hrest.
    repeat split; congruence.
Qed.

(** C7.  The child-status handler returns after it has gone through
    every status change the kernel holds, in order; for each child it has
    removed the job if the child exited or was killed by a signal, set
    the job to Stopped if the child was stopped, and changed nothing if
    the child was continued.  The signal mask is as the handler found it. *)
Theorem sigchld_handler_reaps (avail : list (Z * wstatus)) (s : shell) :
  Forall (fun pw : Z * wstatus => 0 < pw.1) avail ->
  exists s',
    sigchld_handler avail s = Ret tt s'
    /\ job_list s' = fold_left status_change avail (job_list s)
    /\ sigmask s' = sigmask s.
Proof.
  intros Hpos. unfold sigchld_handler.
  run. destruct (verbose s) eqn:Hv; run.
  - match goal with
    | |- context [reap_all avail ?st] =>
        destruct (reap_all_effect avail st Hpos) as (s1 & -> & Hjobs & Hv1 & Hm)
    end.
    cbn [job_list verbose sigmask] in *. run.
    eexists. split; [reflexivity|]. cbn [job_list sigmask]. by split.
  - destruct (reap_all_effect avail s Hpos) as (s1 & -> & Hjobs & Hv1 & Hm).
    run. exists s1. by repeat split.
Qed.

Lemma sigchld_handler_reaps_witness :
  let avail := [(101, WExited 0); (102, WStopped 20); (103, WContinued);
                (104, WSignaled 2)] in
  Forall (fun pw : Z * wstatus => 0 < pw.1) avail
  /\ exists s',
       sigchld_handler avail crowded = Ret tt s'
       /\ job_list s' = fold_left status_change avail (job_list crowded)
       /\ sigmask s' = sigmask crowded.
Proof.
  intros avail.
  assert (Hpos : Forall (fun pw : Z * wstatus => 0 < pw.1) avail)
    by (repeat constructor).
  split; [exact Hpos|]. exact (sigchld_handler_reaps avail crowded Hpos).
Defined.

(** ** The tokenizer *)

Lemma skip_delims_length buf :
  (String.length (skip_delims buf) <= String.length buf)%nat.
Proof.
  induction buf as [|c buf IH]; cbn; [lia|].
  destruct (is_delim c); cbn; lia.
Qed.

Lemma upto_delim_length buf token next :
  upto_delim buf = (token, next) ->
  (String.length next <= String.length buf)%nat.
Proof.
  revert token next. induction buf as [|c buf IH]; cbn; intros token next.
  - intros [= <- <-]. cbn. lia.
  - destruct (is_delim c).
    + intros [= <- <-]. cbn. lia.
    + destruct (upto_delim buf) as [t n]. intros [= <- <-].
      specialize (IH _ _ eq_refl). lia.
Qed.

Lemma upto_char_length q buf token next :
  upto_char q buf = Some (token, next) ->
  (String.length next <= String.length buf)%nat.
Proof.
  revert token next. induction buf as [|c buf IH]; cbn; intros token next.
  - discriminate.
  - destruct (Ascii.eqb c q).
    + intros [= <- <-]. cbn. lia.
    + destruct (upto_char q buf) as [[t n]|]; [|discriminate].
      intros [= <- <-]. specialize (IH _ _ eq_refl). lia.
Qed.

Lemma skip_delims_head buf c rest :
  skip_delims buf = String c rest -> is_delim c = false.
Proof.
  induction buf as [|c' buf IH]; cbn; [discriminate|].
  destruct (is_delim c') eqn:Hc; [exact IH|]. by intros [= <- <-].
Qed.

Lemma after_length next :
  (String.length (after next) <= String.length next)%nat.
Proof. destruct next; cbn; lia. Qed.

(** The loop ends within the iterations [parse] allows it: the tokenizer
    gives an answer on every line. *)
Lemma scan_terminates fuel buf a :
  (String.length buf < fuel)%nat -> scan fuel buf a <> None.
Proof.
  revert buf a. induction fuel as [|fuel IH]; intros buf a Hlen; [lia|].
  cbn [scan]. pose proof (skip_delims_length buf) as Hskip.
  destruct (skip_delims buf) as [|c rest] eqn:Hhead; [discriminate|].
  apply skip_delims_head in Hhead.
  cbn [String.length] in Hskip.
  destruct (Ascii.eqb c "<").
  { destruct (a_infile a); [discriminate|]. apply IH. lia. }
  destruct (Ascii.eqb c ">").
  { destruct (a_outfile a); [discriminate|]. apply IH. lia. }
  destruct (Ascii.eqb c squote || Ascii.eqb c dquote).
  - destruct (upto_char c rest) as [[token next]|] eqn:Hq; [|discriminate].
    apply upto_char_length in Hq. pose proof (after_length next).
    destruct (record_token token a); [|discriminate].
    destruct (_ >=? _); [discriminate|]. apply IH. lia.
  - cbn [upto_delim]. rewrite Hhead.
    destruct (upto_delim rest) as [token next] eqn:Hd.
    apply upto_delim_length in Hd. pose proof (after_length next).
    destruct (record_token _ a); [|discriminate].
    destruct (_ >=? _); [discriminate|]. apply IH. lia.
Qed.

Lemma scan_line_answers line : scan_line line <> None.
Proof. apply scan_terminates. lia. Qed.

Lemma starts_with_amp_spec token :
  starts_with_amp token = true <-> exists rest, token = String "&" rest.
Proof.
  destruct token as [|c rest]; cbn.
  - split; [discriminate|]. by intros (? & ?).
  - split.
    + intros Hc. apply Ascii.eqb_eq in Hc as ->. by exists rest.
    + intros (r & [= -> _]). reflexivity.
Qed.

(** C5, as amended.  When the loop has recorded the arguments
    [args ++ [final]], the request is marked background and the final
    token is dropped if and only if the first character of the final
    token is the ampersand, whatever follows it; otherwise every argument
    is kept and the request is a foreground one. *)
Theorem background_marker
    (line : string) (args : list string) (final : string)
    (inf outf : option string) :
  scan_line line = Some (inr (Acc (args ++ [final]) inf outf ST_NORMAL)) ->
  exists dropped : bool,
    parse line =
      Parsed (if dropped then 1 else 0)
             (Tokens (if dropped then args else args ++ [final]) inf outf
                     (classify (hd final args)))
    /\ (dropped = true <-> exists rest, final = String "&" rest).
Proof.
  intros Hscan. exists (starts_with_amp final).
  split; [|apply starts_with_amp_spec].
  unfold parse. fold (scan_line line). rewrite Hscan.
  unfold finish_parse. cbn [a_state a_argv a_infile a_outfile].
  change (negb (ST_NORMAL =? ST_NORMAL)) with false. cbv iota.
  rewrite last_last, removelast_last.
  destruct args as [|arg0 args]; cbn [app hd];
    destruct (starts_with_amp final); reflexivity.
Qed.

Lemma background_marker_witness :
  scan_line "ls -l &" = Some (inr (Acc (["ls"; "-l"] ++ ["&"]) None None ST_NORMAL))
  /\ exists dropped : bool,
       parse "ls -l &" =
         Parsed (if dropped then 1 else 0)
                (Tokens (if dropped then ["ls"; "-l"] else ["ls"; "-l"] ++ ["&"])
                        None None (classify (hd "&" ["ls"; "-l"])))
       /\ (dropped = true <-> exists rest, "&" = String "&" rest).
Proof.
  split; [reflexivity|].
  apply (background_marker "ls -l &" ["ls"; "-l"] "&" None None). reflexivity.
Defined.

(** C5, as stated, fails on a final token that begins with the ampersand
    and goes on: the token is not the single character, yet it is dropped
    and the request is marked background. *)
Lemma amp_prefix_counterexample :
  scan_line "ls &x" = Some (inr (Acc ["ls"; "&x"] None None ST_NORMAL))
  /\ "&x" <> "&"
  /\ parse "ls &x" = Parsed 1 (Tokens ["ls"] None None BUILTIN_NONE)
  /\ parse "ls &x" <> Parsed 0 (Tokens ["ls"; "&x"] None None BUILTIN_NONE).
Proof. repeat split; try reflexivity; discriminate. Qed.

(** ** Background commands *)


(** The job id shown for a fresh pid is the one the counter held. *)
Lemma pid2jid_fresh jobs i j0 p n st cmd :
  1 <= p ->
  first_slot (fun j => pid j = 0) jobs = Some (i, j0) ->
  Forall (fun j => pid j <> p) jobs ->
  pid2jid (<[i := Job p n st cmd]> jobs) p = n.
Proof.
  intros Hp Hslot Hfresh. unfold pid2jid.
  replace (p <? 1) with false by (symmetry; apply Z.ltb_ge; lia).
  unfold first_slot in *. apply list_find_Some in Hslot as (Hlook & _ & _).
  assert (Hfind : list_find (fun j => pid j = p) (<[i := Job p n st cmd]> jobs)
                  = Some (i, Job p n st cmd)).
  { apply list_find_Some. split; [|split; [done|]].
    - apply list_lookup_insert_eq. by eapply lookup_lt_Some.
    - intros k j Hk Hlt. rewrite list_lookup_insert_ne in Hk by lia.
      rewrite Forall_forall in Hfresh. apply Hfresh.
      eapply list_elem_of_lookup_2. exact Hk. }
  by rewrite Hfind.
Qed.





(** ** The bg and fg built-ins *)

Lemma execfg_target tok junk s :
  argc tok = 2 ->
  execfg tok junk s =
  match target (job_list s) (nth 1 (argv tok) EmptyString) junk with
  | Some (i, j) =>
      Ret 1 {| job_list := <[i := set_state FG j]> (job_list s);
               nextjid := nextjid s; verbose := verbose s; sigmask := sigmask s;
               trace := trace s ++ [KillCall (pid j) SIGCONT] |}
  | None => Ret 0 s
  end.
Proof.
  intros Hargc. unfold execfg, target. rewrite Hargc. run.
  set (p := match sscanf_d _ with Some v => v | None => junk end).
  destruct (getjobpid (job_list s) p) as [[i j]|] eqn:Hpid; run.
  - assert (Hp : pid j = p).
    { unfold getjobpid, first_slot in Hpid. destruct (p <? 1); [discriminate|].
      by apply list_find_Some in Hpid as (_ & ? & _). }
    by rewrite Hp.
  - destruct (sscanf_c_d _) as [[c n]|]; [|reflexivity].
    destruct (getjobjid (job_list s) n) as [[i j]|]; run; reflexivity.
Qed.

Lemma pid2jid_set_state jobs i j st :
  getjobpid jobs (pid j) = Some (i, j) ->
  pid2jid (<[i := set_state st j]> jobs) (pid j) = jid j.
Proof.
  unfold getjobpid, pid2jid, first_slot. destruct (pid j <? 1); [discriminate|].
  intros Hfind. apply list_find_Some in Hfind as (Hlook & _ & Hbefore).
  assert (Hnew : list_find (fun j' => pid j' = pid j) (<[i := set_state st j]> jobs)
                 = Some (i, set_state st j)).
  { apply list_find_Some. split; [|split; [done|]].
    - apply list_lookup_insert_eq. by eapply lookup_lt_Some.
    - intros k j' Hk Hlt. rewrite list_lookup_insert_ne in Hk by lia.
      by eapply Hbefore. }
  by rewrite Hnew.
Qed.

Lemma execbg_target tok junk s :
  argc tok = 2 ->
  execbg tok junk s =
  match target (job_list s) (nth 1 (argv tok) EmptyString) junk with
  | Some (i, j) =>
      Ret 1 {| job_list := <[i := set_state BG j]> (job_list s);
               nextjid := nextjid s; verbose := verbose s; sigmask := sigmask s;
               trace := trace s ++ [Output (bg_line (jid j) (pid j) (cmdline j));
                                    KillCall (- pid j) SIGCONT] |}
  | None => Ret 0 s
  end.
Proof.
  intros Hargc. unfold execbg, target. rewrite Hargc. run.
  set (p := match sscanf_d _ with Some v => v | None => junk end).
  destruct (getjobpid (job_list s) p) as [[i j]|] eqn:Hpid; run.
  - assert (Hp : pid j = p).
    { unfold getjobpid, first_slot in Hpid. destruct (p <? 1); [discriminate|].
      by apply list_find_Some in Hpid as (_ & ? & _). }
    subst p. rewrite <- Hp in *. rewrite pid2jid_set_state by done.
    by flatten_trace.
  - destruct (sscanf_c_d _) as [[c n]|]; [|reflexivity].
    destruct (getjobjid (job_list s) n) as [[i j]|] eqn:Hjid; run; [|reflexivity].
    assert (Hn : jid j = n).
    { unfold getjobjid, first_slot in Hjid. destruct (n <? 1); [discriminate|].
      by apply list_find_Some in Hjid as (_ & ? & _). }
    rewrite Hn. by flatten_trace.
Qed.

Lemma argc_two tok :
  argc tok = 2 -> exists a0 rest, argv tok = a0 :: rest.
Proof.
  unfold argc. destruct (argv tok) as [|a0 rest]; [discriminate|]. by exists a0, rest.
Qed.

(** A resolved fg sets the state, signals the process whose pid the job
    records and goes back to the read loop: the waiting loop is not on
    this path of [eval]. *)
Lemma eval_fg_resolved line env s bg tok i j :
  parse line = Parsed bg tok ->
  builtins tok = BUILTIN_FG ->
  argc tok = 2 ->
  target (job_list s) (nth 1 (argv tok) EmptyString) (junk env) = Some (i, j) ->
  eval line env s =
  Ret tt {| job_list := <[i := set_state FG j]> (job_list s);
            nextjid := nextjid s; verbose := verbose s; sigmask := sigmask s;
            trace := trace s ++ saved tok ++ redirected tok
                     ++ [KillCall (pid j) SIGCONT] ++ restored tok |}.
Proof.
  intros Hparse Hfg Hargc Htarget.
  destruct (argc_two tok Hargc) as (a0 & rest & Hargv).
  unfold eval, parseline. rewrite Hparse. run. rewrite Hargv.
  unfold saved, redirected, restored.
  destruct (infile tok) eqn:Hin, (outfile tok) eqn:Hout; run;
    unfold builtin_command; rewrite Hfg, Hin, Hout; run;
    rewrite (execfg_target _ _ _ Hargc); cbn [job_list];
    rewrite Htarget; run; flatten_trace; reflexivity.
Qed.

Lemma eval_bg_resolved line env s bg tok i j :
  parse line = Parsed bg tok ->
  builtins tok = BUILTIN_BG ->
  argc tok = 2 ->
  target (job_list s) (nth 1 (argv tok) EmptyString) (junk env) = Some (i, j) ->
  eval line env s =
  Ret tt {| job_list := <[i := set_state BG j]> (job_list s);
            nextjid := nextjid s; verbose := verbose s; sigmask := sigmask s;
            trace := trace s ++ saved tok ++ redirected tok
                     ++ [Output (bg_line (jid j) (pid j) (cmdline j));
                         KillCall (- pid j) SIGCONT] ++ restored tok |}.
Proof.
  intros Hparse Hbg Hargc Htarget.
  destruct (argc_two tok Hargc) as (a0 & rest & Hargv).
  unfold eval, parseline. rewrite Hparse. run. rewrite Hargv.
  unfold saved, redirected, restored.
  destruct (infile tok) eqn:Hin, (outfile tok) eqn:Hout; run;
    unfold builtin_command; rewrite Hbg, Hin, Hout; run;
    rewrite (execbg_target _ _ _ Hargc); cbn [job_list];
    rewrite Htarget; run; flatten_trace; reflexivity.
Qed.

(** In [suspended] the only job has pid 100 and job id 1; whatever the
    indeterminate pid is, an argument that is no number and whose second
    character on reads 1 leads to that job. *)
Lemma target_suspended arg c junk :
  sscanf_d arg = None ->
  sscanf_c_d arg = Some (c, 1) ->
  target (job_list suspended) arg junk = Some (0%nat, Job 100 1 ST "/bin/sleep 60").
Proof.
  intros Hd Hcd. unfold target. rewrite Hd, Hcd.
  destruct (decide (junk = 100)) as [->|Hne]; [reflexivity|].
  assert (Hnone : getjobpid (job_list suspended) junk = None).
  { unfold getjobpid. destruct (Z.ltb_spec junk 1); [reflexivity|].
    apply first_slot_none. vm_compute job_list.
    repeat constructor; cbn; lia. }
  rewrite Hnone. reflexivity.
Qed.

(** C1 (the code departs from the claim).  With the stopped job of pid 100
    and job id 1 in the table, the line [fg %1] sets the job to Foreground,
    calls [kill] with the positive pid 100, which addresses that one
    process and not its group, and returns to the read loop at once,
    whatever signals are due: the job is still in the foreground when the
    next line is read. *)
Theorem fg_returns_without_waiting (env : environment) :
  exists s',
    eval "fg %1" env suspended = Ret tt s'
    /\ job_list s' !! 0%nat = Some (Job 100 1 FG "/bin/sleep 60")
    /\ trace s' = trace suspended ++ [KillCall 100 SIGCONT]
    /\ fgpid (job_list s') = 100.
Proof.
  eexists. split.
  - apply (eval_fg_resolved "fg %1" env suspended 0
             (Tokens ["fg"; "%1"] None None BUILTIN_FG)); try reflexivity.
    apply (target_suspended "%1" "%"); reflexivity.
  - cbn [job_list trace]. repeat split; reflexivity.
Qed.

Lemma digit_plain c d :
  digit c = Some d ->
  isspace c = false /\ Ascii.eqb c "-" = false /\ Ascii.eqb c "+" = false.
Proof.
  destruct c as [b0 b1 b2 b3 b4 b5 b6 b7].
  destruct b0, b1, b2, b3, b4, b5, b6, b7; vm_compute; intros Hd;
    try discriminate Hd; repeat split.
Qed.

(** A value that fits an [int] is stored as it is. *)
Lemma to_int_fits n :
  - 2147483648 <= n < 2147483648 -> to_int (strtol_range n) = n.
Proof.
  intros Hn. unfold strtol_range, LONG_MAX, LONG_MIN, to_int.
  rewrite Z.min_r, Z.max_r by lia. rewrite Z.mod_small by lia. lia.
Qed.

(** A string of digits is converted to the [int] its value leaves. *)
Lemma conv_d_digits arg n :
  numeral arg = Some n -> conv_d arg = Some (to_int (strtol_range n)).
Proof.
  destruct arg as [|c rest]; [discriminate|]. unfold numeral.
  destruct (all_digits (String c rest)) eqn:Hall; [|discriminate].
  intros [= Hn]. cbn [all_digits] in Hall.
  destruct (digit c) as [d|] eqn:Hd; [|discriminate].
  destruct (digit_plain c d Hd) as (Hsp & Hminus & Hplus).
  unfold conv_d. cbn [skip_space]. rewrite Hsp, Hminus, Hplus, Hd.
  cbn [digits]. rewrite Hd. cbn [digits] in Hn. rewrite ?Hd in Hn.
  by rewrite Hn.
Qed.

Lemma conv_d_numeral arg n :
  numeral arg = Some n -> 0 <= n < 2147483648 -> conv_d arg = Some n.
Proof.
  intros Hnum Hfits. rewrite (conv_d_digits _ _ Hnum).
  by rewrite to_int_fits by lia.
Qed.

Lemma to_int_range z : - 2147483648 <= to_int z < 2147483648.
Proof.
  unfold to_int. pose proof (Z.mod_pos_bound (z + 2147483648) 4294967296). lia.
Qed.

(** Every argument that names a tracked job in the sense of the
    specification leads bg and fg to a job, the pids and job ids of the
    table being values of an [int]. *)
Lemma resolves_target jobs arg junk :
  Forall (fun j => pid j < 2147483648 /\ jid j < 2147483648) jobs ->
  resolves jobs arg -> exists found, target jobs arg junk = Some found.
Proof.
  unfold target. intros Hints. rewrite Forall_forall in Hints.
  intros [(p & j & Hnum & Hp & Hin & Hpid)|(rest & n & j & -> & Hnum & Hn & Hin & Hjid)];
    pose proof (Hints j Hin) as [Hpint Hjint].
  - unfold sscanf_d. rewrite (conv_d_numeral _ _ Hnum) by lia.
    unfold getjobpid. replace (p <? 1) with false by (symmetry; apply Z.ltb_ge; lia).
    destruct (first_slot_some (fun j => pid j = p) jobs) as (i & j' & -> & _).
    { apply Exists_exists. by exists j. }
    by eexists.
  - destruct (getjobpid jobs _) as [found|]; [by eexists|].
    unfold sscanf_c_d. rewrite (conv_d_numeral _ _ Hnum) by lia.
    unfold getjobjid. replace (n <? 1) with false by (symmetry; apply Z.ltb_ge; lia).
    destruct (first_slot_some (fun j => jid j = n) jobs) as (i & j' & -> & _).
    { apply Exists_exists. by exists j. }
    by eexists.
Qed.

(** C9 (the code departs from the claim).  The argument [x1] names no
    tracked job: it is neither a pid nor a job id behind the percent
    sign.  Yet bg and fg take its first character for the marker, read
    job id 1 behind it and act on that job: they return 1, change its
    state and send the continue signal, whatever the indeterminate pid
    is. *)
Theorem bg_fg_accept_any_marker (junk : Z) :
  ~ resolves (job_list suspended) "x1"
  /\ parse "bg x1" = Parsed 0 (Tokens ["bg"; "x1"] None None BUILTIN_BG)
  /\ (exists s',
        execbg (Tokens ["bg"; "x1"] None None BUILTIN_BG) junk suspended = Ret 1 s'
        /\ job_list s' !! 0%nat = Some (Job 100 1 BG "/bin/sleep 60")
        /\ trace s' = trace suspended
                      ++ [Output ("[1] (100) /bin/sleep 60 " +:+ nl);
                          KillCall (-100) SIGCONT])
  /\ (exists s',
        execfg (Tokens ["fg"; "x1"] None None BUILTIN_FG) junk suspended = Ret 1 s'
        /\ job_list s' !! 0%nat = Some (Job 100 1 FG "/bin/sleep 60")
        /\ trace s' = trace suspended ++ [KillCall 100 SIGCONT]).
Proof.
  split.
  { intros [(p & j & Hnum & _)|(rest & n & j & Harg & _)]; discriminate. }
  split; [reflexivity|]. split.
  - rewrite execbg_target by reflexivity.
    cbn [argv nth]. rewrite (target_suspended "x1" "x") by reflexivity.
    eexists. split; [reflexivity|]. cbn [job_list trace]. split; reflexivity.
  - rewrite execfg_target by reflexivity.
    cbn [argv nth]. rewrite (target_suspended "x1" "x") by reflexivity.
    eexists. split; [reflexivity|]. cbn [job_list trace]. split; reflexivity.
Qed.

(** What does hold of an argument that leads to no job: the call
    returns 0 and the shell state is untouched. *)
Lemma unresolved_target_no_effect tok junk s :
  argc tok = 2 ->
  target (job_list s) (nth 1 (argv tok) EmptyString) junk = None ->
  execbg tok junk s = Ret 0 s /\ execfg tok junk s = Ret 0 s.
Proof.
  intros Hargc Hnone.
  by rewrite execbg_target, execfg_target, Hnone.
Qed.

(** C3 (the code departs from the claim).  Two background jobs are
    started and each is brought to the foreground in turn; as fg does not
    wait, the second fg is evaluated while the first job is still in the
    foreground, and the table then holds two foreground jobs. *)
Theorem two_foreground_jobs :
  exists s,
    shell_run (two_jobs ++ [Line "fg %1" (quiet 0); Line "fg %2" (quiet 0)])
              (startup false) = Ret tt s
    /\ foreground_jobs s = 2%nat
    /\ job_list s !! 0%nat = Some (Job 100 1 FG "/bin/sleep 100 &")
    /\ job_list s !! 1%nat = Some (Job 101 2 FG "/bin/sleep 200 &").
Proof.
  eexists. split; [vm_compute; reflexivity|]. repeat split; reflexivity.
Qed.

(** ** The waiting loop *)

Lemma reap_all_sigmask avail s s' :
  reap_all avail s = Ret tt s' -> sigmask s' = sigmask s.
Proof.
  revert s. induction avail as [|[p w] avail IH]; intros s; cbn [reap_all].
  - by intros [= <-].
  - destruct (Z.gtb_spec p 0) as [Hp|Hp]; [|by intros [= <-]].
    destruct (reap_effect p w s Hp) as (s1 & Hreap & _ & _ & Hm).
    unfold bind. rewrite Hreap. intros Hrest. apply IH in Hrest. congruence.
Qed.

(** A handler that returns leaves the signal mask as it found it. *)
Lemma handle_sigmask d s s' :
  handle d s = Ret tt s' -> sigmask s' = sigmask s.
Proof.
  destruct d as [avail| | |]; cbn [handle].
  - unfold sigchld_handler. run. destruct (verbose s); run.
    + destruct (reap_all avail _) as [[] s1|c s1|s1] eqn:Hreap; try discriminate.
      apply reap_all_sigmask in Hreap. run. intros [= <-]. exact Hreap.
    + destruct (reap_all avail _) as [[] s1|c s1|s1] eqn:Hreap; try discriminate.
      apply reap_all_sigmask in Hreap. intros [= <-]. exact Hreap.
  - unfold sigint_handler. run.
    destruct (verbose s); run; destruct (fgpid (job_list s) >? 0); run;
      by intros [= <-].
  - unfold sigtstp_handler. run.
    destruct (verbose s); run; destruct (fgpid (job_list s) >? 0); run;
      by intros [= <-].
  - unfold sigquit_handler. run. destruct (verbose s); run; discriminate.
Qed.

Lemma reap_all_returns avail s : exists s', reap_all avail s = Ret tt s'.
Proof.
  revert s. induction avail as [|[p w] avail IH]; intros s; cbn [reap_all].
  - by exists s.
  - destruct (Z.gtb_spec p 0) as [Hp|Hp]; [|by exists s].
    destruct (reap_effect p w s Hp) as (s1 & Hreap & _).
    unfold bind. rewrite Hreap. apply IH.
Qed.

(** No handler suspends. *)
Lemma handle_not_blocked d s s' : handle d s <> Blocked s'.
Proof.
  destruct d as [avail| | |]; cbn [handle].
  - unfold sigchld_handler. run. destruct (verbose s); run;
      match goal with
      | |- context [reap_all avail ?st] =>
          destruct (reap_all_returns avail st) as (s1 & ->)
      end; run; discriminate.
  - unfold sigint_handler. run.
    destruct (verbose s); run; destruct (fgpid (job_list s) >? 0); run;
      discriminate.
  - unfold sigtstp_handler. run.
    destruct (verbose s); run; destruct (fgpid (job_list s) >? 0); run;
      discriminate.
  - unfold sigquit_handler. run. destruct (verbose s); run; discriminate.
Qed.

(** When the waiting loop returns, no job is in the foreground. *)
Lemma wait_fg_returns_clear prev sched : forall committed s s',
  wait_fg prev committed sched s = Ret tt s' -> fgpid (job_list s') = 0.
Proof.
  induction sched as [|[m d] rest IH]; intros committed s s'; cbn [wait_fg]; run.
  - destruct (negb committed && (fgpid (job_list s) =? 0)) eqn:Htest; [|discriminate].
    intros [= <-]. apply andb_prop in Htest as [_ Hz]. by apply Z.eqb_eq in Hz.
  - destruct (negb committed && (fgpid (job_list s) =? 0)) eqn:Htest.
    { intros [= <-]. apply andb_prop in Htest as [_ Hz]. by apply Z.eqb_eq in Hz. }
    destruct m; run;
      repeat match goal with
        | |- context [if negb ?b then _ else _] => destruct b; cbn [negb]
        end;
      try apply IH;
      (destruct (handle d s) as [[] s1|c s1|s1]; [apply IH|discriminate..]).
Qed.

(** Had the test been made with the signals still blocked, every signal
    would end a suspension and be followed by a new test: the evaluator
    could only stay suspended with a job in the foreground. *)
Lemma wait_fg_held_until_suspend prev sched s s' :
  held_until_suspend (sigmask s) prev sched ->
  wait_fg prev false sched s = Blocked s' ->
  fgpid (job_list s') <> 0.
Proof.
  revert s. induction sched as [|[m d] rest IH]; intros s Hheld; cbn [wait_fg]; run.
  - destruct (Z.eqb_spec (fgpid (job_list s)) 0); cbn [negb andb]; [discriminate|].
    by intros [= <-].
  - destruct (Z.eqb_spec (fgpid (job_list s)) 0); cbn [negb andb]; [discriminate|].
    inversion Hheld as [|? ? [Hin Hout] Hrest]; subst. cbn [snd] in *.
    destruct m; run; rewrite ?Hin, Hout; cbn [negb];
      (destruct (handle d s) as [[] s1|c s1|s1] eqn:Hd;
       [|discriminate|by apply handle_not_blocked in Hd]);
      apply IH; by rewrite (handle_sigmask _ _ _ Hd).
Qed.

(** C2 (the code departs from the claim).  [eval] restores the mask
    before the waiting loop, so the child-status signal can be delivered
    between the test and the suspension.  Here the foreground child exits
    in that window: the handler removes the job, and the evaluator then
    suspends although the table holds no foreground job, with no
    notification left to wake it.  The same exit notified during the
    suspension ends the wait. *)
Theorem wakeup_lost_before_suspend :
  (exists s',
     eval "/bin/sleep 1" early_exit (startup false) = Blocked s'
     /\ fgpid (job_list s') = 0
     /\ job_list s' = initjobs
     /\ sigmask s' = [])
  /\ (exists s', eval "/bin/sleep 1" late_exit (startup false) = Ret tt s'
                 /\ job_list s' = initjobs).
Proof.
  split; eexists; (split; [vm_compute; reflexivity|]); repeat split; reflexivity.
Qed.

(** * Further properties of the code *)

(** ** What the evaluator and the handlers keep *)

Section Keeping.

Variable I : shell -> Prop.

(** The property does not look at the trace nor at the signal mask ... *)
Hypothesis I_trace : forall s t, I s -> I (with_trace t s).
Hypothesis I_sigmask : forall s m, I s -> I (with_sigmask m s).

(** ... and the routines that write to the job table keep it. *)
Hypothesis I_addjob :
  forall p st cmd, st <> UNDEF -> keeps I (addjob p st cmd).
Hypothesis I_deletejob : forall p, keeps I (deletejob p).
Hypothesis I_stopjob : forall p, keeps I (stopjob p).
Hypothesis I_execbg : forall tok junk, keeps I (execbg tok junk).
Hypothesis I_execfg : forall tok junk, keeps I (execfg tok junk).

Lemma keeps_ret {A} (a : A) : keeps I (ret a).
Proof. intros s Hs. exact Hs. Qed.

Lemma keeps_bind {A B} (c : M A) (k : A -> M B) :
  keeps I c -> (forall a, keeps I (k a)) -> keeps I (bind c k).
Proof.
  intros Hc Hk s Hs. specialize (Hc s Hs). unfold bind.
  destruct (c s) as [a s1|code s1|s1]; cbn [final] in *; [|done..].
  by apply Hk.
Qed.

Lemma keeps_gets {A} (f : shell -> A) : keeps I (gets f).
Proof. intros s Hs. exact Hs. Qed.

Lemma keeps_exit {A} code : keeps I (@exit A code).
Proof. intros s Hs. exact Hs. Qed.

Lemma keeps_emit e : keeps I (emit e).
Proof. intros s Hs. by apply I_trace. Qed.

Lemma keeps_when b c : keeps I c -> keeps I (when b c).
Proof. intros Hc. destruct b; [exact Hc|apply keeps_ret]. Qed.

Lemma keeps_block set : keeps I (Sigprocmask_BLOCK set).
Proof. intros s Hs. by apply I_sigmask. Qed.

Lemma keeps_setmask set : keeps I (Sigprocmask_SETMASK set).
Proof. intros s Hs. by apply I_sigmask. Qed.

Lemma keeps_redirect path fd : keeps I (redirect path fd).
Proof. destruct path; [apply keeps_emit|apply keeps_ret]. Qed.

Lemma keeps_listjobs : keeps I listjobs.
Proof. intros s Hs. by apply I_trace. Qed.

Lemma keeps_parseline line : keeps I (parseline line).
Proof.
  unfold parseline. destruct (parse line); [|apply keeps_ret].
  apply keeps_bind; [apply keeps_emit|intros; apply keeps_ret].
Qed.

(** One step of a proof that code keeps [I]: the code is taken apart
    along its binds and its case distinctions. *)
Ltac keep :=
  repeat match goal with
    | |- keeps I (ret _) => apply keeps_ret
    | |- keeps I (gets _) => apply keeps_gets
    | |- keeps I (exit _) => apply keeps_exit
    | |- keeps I (emit _) => apply keeps_emit
    | |- keeps I (printf _) => apply keeps_emit
    | |- keeps I (Kill _ _) => apply keeps_emit
    | |- keeps I (Sigprocmask_BLOCK _) => apply keeps_block
    | |- keeps I (Sigprocmask_SETMASK _) => apply keeps_setmask
    | |- keeps I (redirect _ _) => apply keeps_redirect
    | |- keeps I listjobs => apply keeps_listjobs
    | |- keeps I (parseline _) => apply keeps_parseline
    | |- keeps I (deletejob _) => apply I_deletejob
    | |- keeps I (stopjob _) => apply I_stopjob
    | |- keeps I (execbg _ _) => apply I_execbg
    | |- keeps I (execfg _ _) => apply I_execfg
    | |- keeps I (when _ _) => apply keeps_when
    | |- keeps I (bind _ _) => apply keeps_bind; [|intros ?]
    | |- keeps I (if ?b then _ else _) => destruct b
    | |- keeps I (match ?x with _ => _ end) => destruct x
    end.

Lemma keeps_builtin_command tok junk : keeps I (builtin_command tok junk).
Proof. unfold builtin_command. keep. Qed.

Lemma keeps_reap p w : keeps I (reap p w).
Proof. unfold reap. keep. Qed.

Lemma keeps_reap_all avail : keeps I (reap_all avail).
Proof.
  induction avail as [|[p w] avail IH]; cbn [reap_all]; keep.
  - apply keeps_reap.
  - exact IH.
Qed.

Lemma keeps_handle d : keeps I (handle d).
Proof.
  destruct d; cbn [handle];
    unfold sigchld_handler, sigint_handler, sigtstp_handler, sigquit_handler;
    keep; apply keeps_reap_all.
Qed.

Lemma keeps_wait_fg prev sched : forall committed,
  keeps I (wait_fg prev committed sched).
Proof.
  induction sched as [|[m d] rest IH]; intros committed; cbn [wait_fg]; keep;
    try apply keeps_handle; try apply IH.
  intros s Hs. exact Hs.
Qed.

Lemma keeps_reap_early prev child early : keeps I (reap_early prev child early).
Proof. unfold reap_early. keep. apply keeps_handle. Qed.

Lemma keeps_eval line env : keeps I (eval line env).
Proof.
  unfold eval. cbv zeta. keep; try apply keeps_builtin_command;
    try apply keeps_wait_fg; try apply keeps_reap_early;
    apply I_addjob; by destruct (_ =? _).
Qed.

Lemma keeps_shell_run inputs : keeps I (shell_run inputs).
Proof.
  induction inputs as [|[line env|d] rest IH]; cbn [shell_run]; keep;
    try apply keeps_eval; try apply keeps_handle; exact IH.
Qed.

Lemma keeps_main_loop emit_prompt envs fuel : forall k input,
  keeps I (main_loop fuel emit_prompt envs k input).
Proof.
  induction fuel as [|fuel IH]; intros k input; cbn [main_loop]; keep.
  - apply keeps_eval.
  - apply IH.
Qed.

End Keeping.

(** ** Well-formed job tables *)

Lemma wf_slot_occupied j :
  wf_slot j -> 1 <= pid j \/ 1 <= jid j ->
  1 <= pid j /\ 1 <= jid j /\ state j <> UNDEF.
Proof.
  intros [->|Hocc] Hpos; [|exact Hocc]. cbn in Hpos. lia.
Qed.

Lemma wf_insert s i j :
  wf s -> wf_slot j -> wf (with_jobs (<[i := j]> (job_list s)) s).
Proof.
  intros (Hlen & Hall & Hnext) Hj. unfold wf. cbn [job_list nextjid with_jobs].
  rewrite length_insert. repeat split; [done| |done].
  by apply Forall_insert.
Qed.

Lemma wf_found (P : job_t -> Prop) `{!∀ j, Decision (P j)} s i j :
  wf s -> first_slot P (job_list s) = Some (i, j) -> wf_slot j /\ P j.
Proof.
  intros (_ & Hall & _) Hslot. unfold first_slot in Hslot.
  apply list_find_Some in Hslot as (Hlook & HP & _). split; [|done].
  rewrite Forall_forall in Hall. apply Hall. by eapply list_elem_of_lookup_2.
Qed.

Lemma wf_initial v : wf (startup v).
Proof.
  repeat split; [|done]. cbn. repeat constructor.
Qed.

Lemma wf_addjob p st cmd : st <> UNDEF -> keeps wf (addjob p st cmd).
Proof.
  intros Hst s Hwf. destruct (Z.ltb_spec p 1) as [Hlt|Hge].
  { unfold addjob. apply Z.ltb_lt in Hlt. by rewrite Hlt. }
  destruct (first_slot (fun j => pid j = 0) (job_list s)) as [[i j0]|] eqn:Hslot.
  - rewrite (addjob_free _ _ _ _ _ _ Hge Hslot). cbn [final].
    destruct Hwf as (Hlen & Hall & Hnext). unfold wf. cbn [job_list nextjid].
    rewrite length_insert. repeat split; [done| |].
    + apply Forall_insert; [done|]. right. cbn. repeat split; done.
    + destruct (_ >? _); lia.
  - rewrite addjob_full; [exact Hwf|done|].
    unfold first_slot in Hslot. apply list_find_None in Hslot.
    eapply Forall_impl; [exact Hslot|]. auto.
Qed.

Lemma wf_deletejob p : keeps wf (deletejob p).
Proof.
  intros s Hwf. unfold deletejob. destruct (p <? 1); [exact Hwf|]. run.
  destruct (first_slot _ _) as [[i j]|] eqn:Hslot; run; [|exact Hwf].
  cbn [final]. destruct Hwf as (Hlen & Hall & Hnext).
  unfold wf. cbn [job_list nextjid]. rewrite length_insert.
  repeat split; [done| |].
  - apply Forall_insert; [done|]. by left.
  - pose proof (maxjid_spec (<[i := clearjob j]> (job_list s))) as (Hmax & _). lia.
Qed.

Lemma wf_stopjob p : keeps wf (stopjob p).
Proof.
  intros s Hwf. unfold stopjob. destruct (Z.ltb_spec p 1) as [Hlt|Hge]; [exact Hwf|].
  run. destruct (first_slot _ _) as [[i j]|] eqn:Hslot; run; [|exact Hwf].
  cbn [final]. destruct (wf_found _ _ _ _ Hwf Hslot) as (Hj & Hp).
  destruct (wf_slot_occupied j Hj) as (Hpid & Hjid & _); [left; lia|].
  apply (wf_insert s i (Job (pid j) (jid j) ST (cmdline j)) Hwf).
  right. cbn. repeat split; done.
Qed.

(** The job bg and fg act on sits in the table and is no clear slot. *)
Lemma target_found jobs arg junk i j :
  target jobs arg junk = Some (i, j) ->
  jobs !! i = Some j /\ (1 <= pid j \/ 1 <= jid j).
Proof.
  unfold target, getjobpid, getjobjid, first_slot.
  set (p := match sscanf_d arg with Some v => v | None => junk end).
  destruct (Z.ltb_spec p 1) as [Hlt|Hge].
  - destruct (sscanf_c_d arg) as [[c n]|]; [|discriminate].
    destruct (Z.ltb_spec n 1) as [Hn|Hn]; [discriminate|].
    intros Hfind. apply list_find_Some in Hfind as (Hlook & Hjid & _).
    split; [done|]. right. lia.
  - destruct (list_find _ jobs) as [[i' j']|] eqn:Hpid.
    + intros [= -> ->]. apply list_find_Some in Hpid as (Hlook & Hp & _).
      split; [done|]. left. lia.
    + destruct (sscanf_c_d arg) as [[c n]|]; [|discriminate].
      destruct (Z.ltb_spec n 1) as [Hn|Hn]; [discriminate|].
      intros Hfind. apply list_find_Some in Hfind as (Hlook & Hjid & _).
      split; [done|]. right. lia.
Qed.

Lemma wf_set_state s i j st arg junk :
  wf s -> st <> UNDEF ->
  target (job_list s) arg junk = Some (i, j) ->
  wf_slot (set_state st j).
Proof.
  intros (_ & Hall & _) Hst Htarget.
  apply target_found in Htarget as (Hlook & Hpos).
  rewrite Forall_forall in Hall.
  destruct (wf_slot_occupied j) as (Hpid & Hjid & _); [|done|].
  { apply Hall. by eapply list_elem_of_lookup_2. }
  right. cbn. repeat split; done.
Qed.

Lemma wf_execbg tok junk : keeps wf (execbg tok junk).
Proof.
  intros s Hwf. destruct (Z.eqb_spec (argc tok) 2) as [Hargc|Hargc].
  - rewrite execbg_target by done.
    destruct (target _ _ _) as [[i j]|] eqn:Htarget; [|exact Hwf]. cbn [final].
    apply (wf_insert s i (set_state BG j) Hwf).
    by eapply wf_set_state.
  - unfold execbg. apply Z.eqb_neq in Hargc. by rewrite Hargc.
Qed.

Lemma wf_execfg tok junk : keeps wf (execfg tok junk).
Proof.
  intros s Hwf. destruct (Z.eqb_spec (argc tok) 2) as [Hargc|Hargc].
  - rewrite execfg_target by done.
    destruct (target _ _ _) as [[i j]|] eqn:Htarget; [|exact Hwf]. cbn [final].
    apply (wf_insert s i (set_state FG j) Hwf).
    by eapply wf_set_state.
  - unfold execfg. apply Z.eqb_neq in Hargc. by rewrite Hargc.
Qed.

Lemma wf_frame_trace s t : wf s -> wf (with_trace t s).
Proof. intros Hwf. exact Hwf. Qed.

Lemma wf_frame_sigmask s m : wf s -> wf (with_sigmask m s).
Proof. intros Hwf. exact Hwf. Qed.

(** Whatever reaches the shell, the table stays well formed. *)
Lemma shell_run_wf inputs s : wf s -> wf (final (shell_run inputs s)).
Proof.
  apply (keeps_shell_run wf wf_frame_trace wf_frame_sigmask wf_addjob
           wf_deletejob wf_stopjob wf_execbg wf_execfg).
Qed.

Lemma eval_wf line env s : wf s -> wf (final (eval line env s)).
Proof.
  apply (keeps_eval wf wf_frame_trace wf_frame_sigmask wf_addjob
           wf_deletejob wf_stopjob wf_execbg wf_execfg).
Qed.

Lemma handle_wf d s : wf s -> wf (final (handle d s)).
Proof.
  apply (keeps_handle wf wf_frame_trace wf_frame_sigmask wf_deletejob wf_stopjob).
Qed.

Lemma main_wf emit_prompt envs input s :
  wf s -> wf (final (main emit_prompt envs input s)).
Proof.
  apply (keeps_main_loop wf wf_frame_trace wf_frame_sigmask wf_addjob
           wf_deletejob wf_stopjob wf_execbg wf_execfg).
Qed.

(** X1.  Whatever lines are typed, whatever pids [fork] returns and
    whatever signals arrive, with whatever status changes, the shell
    started by [main] is always left with a table of [MAXJOBS] slots in
    which every slot is clear or holds a positive pid, a positive job id
    and one of the states FG, BG, ST, and with a positive job-id counter;
    this holds whether the run ends in an exit, a suspension or the end
    of the inputs considered. *)
Theorem reachable_tables_wellformed
    (v emit_prompt : bool) (inputs : list input)
    (envs : nat -> environment) (input : string) :
  wf (final (shell_run inputs (startup v)))
  /\ wf (final (main emit_prompt envs input (startup v))).
Proof.
  split; [apply shell_run_wf|apply main_wf]; apply wf_initial.
Qed.

Lemma suspended_wf : wf suspended.
Proof. apply shell_run_wf, wf_initial. Defined.

Lemma crowded_wf : wf crowded.
Proof. apply shell_run_wf, wf_initial. Defined.

(** ** Listing the jobs *)

Lemma listjobs_lines jobs : forall k,
  Forall wf_slot jobs ->
  concat (imap (fun i => listjobs_line (k + i)) jobs)
  = concat (job_line <$> filter (fun j => pid j <> 0) jobs).
Proof.
  induction jobs as [|j jobs IH]; intros k Hall; [reflexivity|].
  inversion Hall as [|? ? Hj Hrest]; subst.
  rewrite imap_cons. cbn [concat].
  rewrite (imap_ext _ (fun i => listjobs_line (S k + i))); last first.
  { intros i x _. cbn. f_equal. lia. }
  rewrite IH by done. destruct Hj as [->|(Hpid & _ & Hst)].
  - rewrite filter_cons_False by (cbn; auto). reflexivity.
  - rewrite filter_cons_True by (cbn; lia). cbn [fmap list_fmap concat].
    f_equal. unfold listjobs_line, job_line.
    replace (pid j =? 0) with false by (symmetry; apply Z.eqb_neq; lia).
    by destruct (state j).
Qed.

(** X2.  On a well-formed table [listjobs] writes, slot by slot, the job
    id, the pid, the label of the state and the command line of each
    occupied slot, and nothing for a clear slot; it never reports an
    internal error, and it changes nothing but the output. *)
Theorem listjobs_lists_the_occupied_slots (s : shell) :
  wf s ->
  listjobs s
  = Ret tt (with_trace
              (trace s ++ concat (job_line <$> filter (fun j => pid j <> 0) (job_list s)))
              s).
Proof.
  intros (_ & Hall & _). unfold listjobs. run.
  rewrite <- (listjobs_lines (job_list s) 0) by done. by destruct s.
Qed.

Lemma listjobs_lists_the_occupied_slots_witness :
  wf suspended
  /\ listjobs suspended
     = Ret tt (with_trace
                 (trace suspended
                  ++ [Output "[1] (100) "; Output "Stopped    ";
                      Output ("/bin/sleep 60" +:+ nl)])
                 suspended).
Proof.
  split; [exact suspended_wf|].
  exact (listjobs_lists_the_occupied_slots suspended suspended_wf).
Defined.

(** ** Looking jobs up *)

(** Writing a slot that the search passes over, before and after, does
    not change what the search finds. *)
Lemma list_find_insert_other (P : job_t -> Prop) `{!∀ j, Decision (P j)}
    (jobs : list job_t) : forall i x,
  ¬ P x -> (forall y, jobs !! i = Some y -> ¬ P y) ->
  list_find P (<[i := x]> jobs) = list_find P jobs.
Proof.
  induction jobs as [|j jobs IH]; intros i x Hx Hold; [reflexivity|].
  destruct i as [|i]; cbn.
  - rewrite decide_False by done.
    rewrite (decide_False (P := P j)) by (by apply Hold). reflexivity.
  - destruct (decide (P j)); [reflexivity|]. by rewrite IH.
Qed.

Lemma getjobpid_tracked jobs p :
  1 <= p ->
  (getjobpid jobs p = None <-> ¬ tracked jobs p)
  /\ (forall i j, getjobpid jobs p = Some (i, j) ->
        jobs !! i = Some j /\ pid j = p /\ pid2jid jobs p = jid j).
Proof.
  intros Hp. unfold getjobpid, pid2jid, tracked, first_slot.
  replace (p <? 1) with false by (symmetry; apply Z.ltb_ge; lia). split.
  - rewrite list_find_None, Forall_forall. split.
    + intros Hnone (j & Hin & Hj). by apply (Hnone j).
    + intros Hnot j Hin Hj. apply Hnot. by exists j.
  - intros i j Hfind. rewrite Hfind.
    apply list_find_Some in Hfind as (Hlook & Hj & _). done.
Qed.

(** X3.  On a well-formed table and for a positive pid, [pid2jid] is 0
    exactly when no slot holds the pid, which is also exactly when
    [getjobpid] finds no job; for a pid the table holds, [pid2jid] is the
    positive job id of the job [getjobpid] returns. *)
Theorem pid2jid_zero_iff_untracked (s : shell) (p : Z) :
  wf s ->
  1 <= p ->
  (pid2jid (job_list s) p = 0 <-> ¬ tracked (job_list s) p)
  /\ (getjobpid (job_list s) p = None <-> ¬ tracked (job_list s) p)
  /\ (forall i j, getjobpid (job_list s) p = Some (i, j) ->
        pid j = p /\ pid2jid (job_list s) p = jid j /\ 1 <= jid j).
Proof.
  intros Hwf Hp. destruct (getjobpid_tracked (job_list s) p Hp) as (Hnone & Hsome).
  assert (Hpos : forall i j, getjobpid (job_list s) p = Some (i, j) ->
                   pid j = p /\ pid2jid (job_list s) p = jid j /\ 1 <= jid j).
  { intros i j Hfind. destruct (Hsome i j Hfind) as (Hlook & Hj & Hjid).
    repeat split; [done..|].
    destruct Hwf as (_ & Hall & _). rewrite Forall_forall in Hall.
    destruct (wf_slot_occupied j) as (_ & ? & _); [|left; lia|done].
    apply Hall. by eapply list_elem_of_lookup_2. }
  split; [|split; [exact Hnone|exact Hpos]].
  destruct (getjobpid (job_list s) p) as [[i j]|] eqn:Hfind.
  - destruct (Hpos i j eq_refl) as (Hj & Hjid & Hone). split.
    + intros Hz. lia.
    + intros Hnot. apply Hnone in Hnot. discriminate.
  - split; [intros _; by apply Hnone|intros _].
    unfold getjobpid in Hfind. unfold pid2jid.
    destruct (p <? 1); [reflexivity|]. by rewrite Hfind.
Qed.

Lemma pid2jid_zero_iff_untracked_witness :
  wf suspended /\ 1 <= 100
  /\ pid2jid (job_list suspended) 100 = 1
  /\ tracked (job_list suspended) 100.
Proof.
  destruct (pid2jid_zero_iff_untracked suspended 100 suspended_wf)
    as (_ & _ & Hfound); [lia|].
  destruct (Hfound 0%nat (Job 100 1 ST "/bin/sleep 60") eq_refl) as (_ & Hjid & _).
  split; [exact suspended_wf|]. split; [lia|]. split; [exact Hjid|].
  exists (Job 100 1 ST "/bin/sleep 60"). split; [|reflexivity].
  apply list_elem_of_lookup. by exists 0%nat.
Defined.

(** X4.  On a well-formed table [fgpid] is 0 exactly when no job is in
    the foreground state; otherwise it is the positive pid of the first
    slot in that state. *)
Theorem fgpid_zero_iff_no_foreground (s : shell) :
  wf s ->
  (fgpid (job_list s) = 0 <-> foreground_jobs s = 0%nat)
  /\ (fgpid (job_list s) <> 0 ->
      1 <= fgpid (job_list s)
      /\ exists i j, job_list s !! i = Some j /\ state j = FG
                     /\ pid j = fgpid (job_list s)
                     /\ forall k j', (k < i)%nat -> job_list s !! k = Some j' ->
                                     state j' <> FG).
Proof.
  intros (_ & Hall & _). unfold fgpid, foreground_jobs, first_slot.
  destruct (list_find _ (job_list s)) as [[i j]|] eqn:Hfind.
  - apply list_find_Some in Hfind as (Hlook & Hfg & Hbefore).
    assert (Hin : j ∈ job_list s) by (by eapply list_elem_of_lookup_2).
    rewrite Forall_forall in Hall.
    assert (Hpid : 1 <= pid j).
    { destruct (Hall j Hin) as [->|(? & _)]; [discriminate|done]. }
    split.
    + split; [lia|]. intros Hnone. exfalso.
      apply length_zero_iff_nil in Hnone.
      assert (Hmem : j ∈ filter (fun j => state j = FG) (job_list s))
        by (by apply list_elem_of_filter).
      rewrite Hnone in Hmem. by apply not_elem_of_nil in Hmem.
    + intros _. split; [done|]. exists i, j. repeat split; [done..|].
      intros k j' Hk Hj'. by eapply Hbefore.
  - split; [|done]. split; [intros _|done].
    apply list_find_None in Hfind. apply length_zero_iff_nil.
    apply elem_of_nil_inv. intros x Hx.
    apply list_elem_of_filter in Hx as (Hfg & Hin).
    rewrite Forall_forall in Hfind. by apply (Hfind x).
Qed.

Lemma fgpid_zero_iff_no_foreground_witness :
  wf suspended
  /\ (fgpid (job_list suspended) = 0 <-> foreground_jobs suspended = 0%nat).
Proof.
  split; [exact suspended_wf|].
  exact (proj1 (fgpid_zero_iff_no_foreground suspended suspended_wf)).
Defined.

(** ** Adding, finding and deleting *)

(** X5.  After a successful [addjob] of a pid the table did not hold,
    [getjobpid] finds the new job, with the job id the counter held, the
    state and the command line given, [pid2jid] returns that job id, and
    the lookup of every other pid is what it was. *)
Theorem addjob_then_lookup
    (p : Z) (st : job_state) (cmd : string) (s s' : shell) :
  addjob p st cmd s = Ret 1 s' ->
  ¬ tracked (job_list s) p ->
  (exists i, getjobpid (job_list s') p = Some (i, Job p (nextjid s) st cmd))
  /\ pid2jid (job_list s') p = nextjid s
  /\ (forall q, q <> p -> getjobpid (job_list s') q = getjobpid (job_list s) q)
  /\ (forall q, q <> p -> pid2jid (job_list s') q = pid2jid (job_list s) q).
Proof.
  intros Hadd Hnew.
  apply addjob_inv in Hadd as (Hp & i & j0 & Hslot & Hjobs & _).
  assert (Hfresh : Forall (fun j => pid j <> p) (job_list s)).
  { apply Forall_forall. intros j Hin Hj. apply Hnew. by exists j. }
  assert (Hjid : pid2jid (job_list s') p = nextjid s)
    by (rewrite Hjobs; by apply (pid2jid_fresh _ _ j0)).
  assert (Hother : forall q, q <> p -> 1 <= q ->
            list_find (fun j => pid j = q) (job_list s')
            = list_find (fun j => pid j = q) (job_list s)).
  { intros q Hq Hq1. rewrite Hjobs.
    apply list_find_insert_other; [cbn; congruence|].
    intros y Hy Hpid. unfold first_slot in Hslot.
    apply list_find_Some in Hslot as (Hlook & Hzero & _).
    assert (y = j0) by congruence. subst y. lia. }
  repeat split; [|exact Hjid|..].
  - exists i. unfold getjobpid, first_slot.
    replace (p <? 1) with false by (symmetry; apply Z.ltb_ge; lia).
    rewrite Hjobs. unfold first_slot in Hslot.
    apply list_find_Some in Hslot as (Hlook & _ & _).
    apply list_find_Some. split; [|split; [done|]].
    + apply list_lookup_insert_eq. by eapply lookup_lt_Some.
    + intros k j Hk Hlt. rewrite list_lookup_insert_ne in Hk by lia.
      rewrite Forall_forall in Hfresh. apply Hfresh.
      by eapply list_elem_of_lookup_2.
  - intros q Hq. unfold getjobpid, first_slot.
    destruct (Z.ltb_spec q 1); [reflexivity|]. by rewrite Hother.
  - intros q Hq. unfold pid2jid, first_slot.
    destruct (Z.ltb_spec q 1); [reflexivity|]. by rewrite Hother.
Qed.

Lemma addjob_then_lookup_witness :
  let s' := final (addjob 100 FG "/bin/ls" (startup false)) in
  addjob 100 FG "/bin/ls" (startup false) = Ret 1 s'
  /\ ¬ tracked (job_list (startup false)) 100
  /\ (exists i, getjobpid (job_list s') 100 = Some (i, Job 100 1 FG "/bin/ls"))
  /\ pid2jid (job_list s') 100 = 1.
Proof.
  intros s'.
  assert (Hadd : addjob 100 FG "/bin/ls" (startup false) = Ret 1 s') by reflexivity.
  assert (Hnew : ¬ tracked (job_list (startup false)) 100)
    by (apply startup_untracked; discriminate).
  destruct (addjob_then_lookup 100 FG "/bin/ls" (startup false) s' Hadd Hnew)
    as (Hfind & Hjid & _).
  repeat split; assumption.
Defined.

(** X6.  [deletejob] returns 1 exactly for a positive pid the table
    holds, and otherwise changes nothing.  When it returns 1 it has
    cleared the first slot that held the pid, one slot fewer holds it,
    the lookup of every other pid is what it was, and if a single slot
    held the pid then [getjobpid] no longer finds it. *)
Theorem deletejob_forgets_the_job (p : Z) (s : shell) :
  exists r s',
    deletejob p s = Ret r s'
    /\ (r = 1 \/ r = 0)
    /\ (r = 1 <-> 1 <= p /\ tracked (job_list s) p)
    /\ (r = 0 -> s' = s)
    /\ (r = 1 ->
        job_list s' = remove_job p (job_list s)
        /\ length (filter (fun j => pid j = p) (job_list s'))
           = Nat.pred (length (filter (fun j => pid j = p) (job_list s)))
        /\ (forall q, q <> p ->
              getjobpid (job_list s') q = getjobpid (job_list s) q)
        /\ (length (filter (fun j => pid j = p) (job_list s)) = 1%nat ->
            getjobpid (job_list s') p = None)).
Proof.
  destruct (Z.ltb_spec p 1) as [Hlt|Hge].
  { exists 0, s. unfold deletejob. apply Z.ltb_lt in Hlt as Hb. rewrite Hb.
    repeat split; auto; try discriminate; try lia; try (intros (? & _); lia). }
  destruct (deletejob_removes p s Hge) as (r & s' & Hdel & Hjobs & _).
  exists r, s'. split; [exact Hdel|].
  unfold deletejob in Hdel.
  replace (p <? 1) with false in Hdel by (symmetry; apply Z.ltb_ge; lia).
  revert Hdel. run.
  destruct (first_slot _ (job_list s)) as [[i j]|] eqn:Hslot; run.
  - intros [= <- <-]. cbn [job_list] in *.
    unfold first_slot in Hslot. apply list_find_Some in Hslot as Hfound.
    destruct Hfound as (Hlook & Hj & _).
    assert (Htr : tracked (job_list s) p).
    { exists j. split; [|done]. by eapply list_elem_of_lookup_2. }
    assert (Hcount : length (filter (fun j => pid j = p)
                               (<[i := clearjob j]> (job_list s)))
                     = Nat.pred (length (filter (fun j => pid j = p) (job_list s)))).
    { rewrite Hjobs. apply remove_job_count. lia. }
    repeat split; auto; try discriminate.
    + intros q Hq. unfold getjobpid, first_slot.
      destruct (Z.ltb_spec q 1); [reflexivity|].
      apply list_find_insert_other; [cbn; lia|].
      intros y Hy. assert (y = j) by congruence. subst y. congruence.
    + intros Hone. rewrite Hone in Hcount. cbn in Hcount.
      apply length_zero_iff_nil in Hcount.
      apply getjobpid_tracked; [done|]. intros (y & Hin & Hy).
      by apply (filter_nil_not_elem_of _ _ y Hcount).
  - intros [= <- <-]. repeat split; auto; try discriminate.
    intros (_ & y & Hin & Hy). exfalso. unfold first_slot in Hslot.
    apply list_find_None in Hslot. rewrite Forall_forall in Hslot.
    by apply (Hslot y).
Qed.

Lemma list_find_insert_same (P : job_t -> Prop) `{!∀ j, Decision (P j)}
    (jobs : list job_t) i x y :
  list_find P jobs = Some (i, y) -> P x ->
  list_find P (<[i := x]> jobs) = Some (i, x).
Proof.
  intros Hfind Hx. apply list_find_Some in Hfind as (Hlook & _ & Hbefore).
  apply list_find_Some. split; [|split; [done|]].
  - apply list_lookup_insert_eq. by eapply lookup_lt_Some.
  - intros k j Hk Hlt. rewrite list_lookup_insert_ne in Hk by lia.
    by eapply Hbefore.
Qed.

(** X7.  Adding a job and then deleting it gives the table back: on a
    well-formed table with a free slot, for a positive pid the table did
    not hold, [addjob] followed by [deletejob] of the same pid leaves
    every slot as it was, and the counter at the largest job id of the
    table plus 1. *)
Theorem addjob_then_deletejob
    (p : Z) (st : job_state) (cmd : string) (s : shell) :
  wf s ->
  1 <= p ->
  ¬ tracked (job_list s) p ->
  ¬ table_full (job_list s) ->
  exists s1 s2,
    addjob p st cmd s = Ret 1 s1
    /\ deletejob p s1 = Ret 1 s2
    /\ job_list s2 = job_list s
    /\ nextjid s2 = maxjid (job_list s) + 1.
Proof.
  intros Hwf Hp Hnew Hfree.
  assert (Hex : Exists (fun j => pid j = 0) (job_list s)).
  { apply not_Forall_Exists in Hfree; [|intros j; apply _].
    eapply Exists_impl; [exact Hfree|]. intros j Hj. cbn in Hj.
    destruct (decide (pid j = 0)); [done|]. by destruct Hj. }
  destruct (first_slot_some (fun j => pid j = 0) _ Hex)
    as (i & j0 & Hslot & Hlook & Hzero).
  assert (Hclear : j0 = empty_slot).
  { destruct (wf_found _ _ _ _ Hwf Hslot) as ([->|(? & _)] & _); [done|lia]. }
  subst j0. eexists _, _. split; [by apply (addjob_free _ _ _ _ i empty_slot)|].
  set (new := Job p (nextjid s) st cmd).
  assert (Hfind : first_slot (fun j => pid j = p) (<[i := new]> (job_list s))
                  = Some (i, new)).
  { unfold first_slot. apply list_find_Some. split; [|split; [done|]].
    - apply list_lookup_insert_eq. by eapply lookup_lt_Some.
    - intros k j Hk Hlt Hj. rewrite list_lookup_insert_ne in Hk by lia.
      apply Hnew. exists j. split; [|done]. by eapply list_elem_of_lookup_2. }
  unfold deletejob.
  replace (p <? 1) with false by (symmetry; apply Z.ltb_ge; lia).
  run. rewrite Hfind. run.
  assert (Hback : <[i := clearjob new]> (<[i := new]> (job_list s)) = job_list s).
  { rewrite list_insert_insert_eq. by apply list_insert_id. }
  rewrite Hback. by repeat split.
Qed.

Lemma addjob_then_deletejob_witness :
  exists s1 s2,
    addjob 300 BG "/bin/ls &" suspended = Ret 1 s1
    /\ deletejob 300 s1 = Ret 1 s2
    /\ job_list s2 = job_list suspended
    /\ nextjid s2 = maxjid (job_list suspended) + 1.
Proof.
  apply (addjob_then_deletejob 300 BG "/bin/ls &" suspended).
  - exact suspended_wf.
  - lia.
  - apply untracked_forall. vm_compute. repeat constructor; discriminate.
  - intros Hfull. vm_compute in Hfull.
    inversion Hfull as [|? ? _ Hrest]. inversion Hrest as [|? ? Hne _].
    by apply Hne.
Defined.

(** X8.  [stopjob] returns 1 exactly for a positive pid the table holds,
    and otherwise changes nothing.  When it returns 1 the job
    [getjobpid] found is now found in the same slot in the state ST,
    with its pid, job id and command line; no job id and no other
    field of the shell changes, and stopping the job again changes
    nothing more. *)
Theorem stopjob_marks_the_job (p : Z) (s : shell) :
  exists r s',
    stopjob p s = Ret r s'
    /\ (r = 1 <-> 1 <= p /\ tracked (job_list s) p)
    /\ (r = 0 -> s' = s)
    /\ (forall i j, getjobpid (job_list s) p = Some (i, j) ->
          getjobpid (job_list s') p = Some (i, set_state ST j))
    /\ (forall q, pid2jid (job_list s') q = pid2jid (job_list s) q)
    /\ nextjid s' = nextjid s /\ sigmask s' = sigmask s /\ trace s' = trace s
    /\ stopjob p s' = Ret r s'.
Proof.
  destruct (Z.ltb_spec p 1) as [Hlt|Hge].
  { exists 0, s. unfold stopjob, getjobpid. apply Z.ltb_lt in Hlt as Hb. rewrite Hb.
    repeat split; auto; try discriminate; try (intros (? & _); lia). }
  unfold stopjob, getjobpid.
  replace (p <? 1) with false by (symmetry; apply Z.ltb_ge; lia). run.
  destruct (first_slot _ (job_list s)) as [[i j]|] eqn:Hslot; run.
  - unfold first_slot in Hslot. pose proof Hslot as Hfound.
    apply list_find_Some in Hfound as (Hlook & Hj & _).
    assert (Hnew : list_find (fun j => pid j = p)
                     (<[i := Job (pid j) (jid j) ST (cmdline j)]> (job_list s))
                   = Some (i, Job (pid j) (jid j) ST (cmdline j)))
      by (by apply (list_find_insert_same _ _ _ _ j)).
    eexists 1, _. split; [reflexivity|]. cbn [job_list nextjid sigmask trace].
    unfold first_slot. rewrite Hnew. run.
    rewrite list_insert_insert_eq.
    repeat split; auto; try discriminate.
    + exists j. split; [|done]. by eapply list_elem_of_lookup_2.
    + by intros i' j' [= <- <-].
    + intros q. unfold pid2jid, first_slot. destruct (q <? 1); [reflexivity|].
      destruct (decide (q = p)) as [->|Hq].
      * by rewrite Hnew, Hslot.
      * rewrite list_find_insert_other; [done|cbn; congruence|].
        intros y Hy. assert (y = j) by congruence. subst y. congruence.
  - exists 0, s. rewrite Hslot. run.
    repeat split; auto; try discriminate.
    intros (_ & y & Hin & Hy). exfalso. unfold first_slot in Hslot.
    apply list_find_None in Hslot. rewrite Forall_forall in Hslot.
    by apply (Hslot y).
Qed.

(** X9.  [maxjid] is the largest job id held by a slot, and 0 when no
    slot holds a positive one: no slot has a larger job id, the value
    is never negative, and unless it is 0 some slot has exactly it. *)
Theorem maxjid_is_largest (jobs : list job_t) :
  0 <= maxjid jobs
  /\ (forall j, j ∈ jobs -> jid j <= maxjid jobs)
  /\ (maxjid jobs = 0 \/ exists j, j ∈ jobs /\ jid j = maxjid jobs).
Proof.
  destruct (maxjid_spec jobs) as (Hpos & Hall & Hmax).
  repeat split; [done| |done]. by apply Forall_forall.
Qed.

(** ** The tokenizer *)

(** The loop leaves at most [MAXARGS - 1] arguments. *)
Lemma scan_argc fuel : forall buf a a',
  scan fuel buf a = Some (inr a') ->
  Z.of_nat (length (a_argv a)) < MAXARGS - 1 ->
  Z.of_nat (length (a_argv a')) <= MAXARGS - 1.
Proof.
  induction fuel as [|fuel IH]; intros buf a a'; cbn [scan]; [discriminate|].
  destruct (skip_delims buf) as [|c rest]; [intros [= <-]; lia|].
  destruct (Ascii.eqb c "<").
  { destruct (a_infile a); [discriminate|]. intros Hscan Hlen.
    by apply (IH _ _ _ Hscan). }
  destruct (Ascii.eqb c ">").
  { destruct (a_outfile a); [discriminate|]. intros Hscan Hlen.
    by apply (IH _ _ _ Hscan). }
  destruct (if Ascii.eqb c squote || Ascii.eqb c dquote then _ else _)
    as [[token next]|]; [|discriminate].
  intros Hscan Hlen.
  assert (Hrec : forall b, record_token token a = Some b ->
            Z.of_nat (length (a_argv b)) <= Z.of_nat (length (a_argv a)) + 1).
  { unfold record_token. intros b.
    destruct (a_state a =? ST_NORMAL);
      [|destruct (a_state a =? ST_INFILE);
        [|destruct (a_state a =? ST_OUTFILE); [|discriminate]]];
      intros [= <-]; cbn [a_argv]; rewrite ?length_app; cbn [length]; lia. }
  destruct (record_token token a) as [b|]; [|discriminate].
  specialize (Hrec b eq_refl).
  destruct (Z.geb_spec (Z.of_nat (length (a_argv b))) (MAXARGS - 1)) as [Hfull|Hroom].
  - injection Hscan as <-. lia.
  - apply (IH _ _ _ Hscan). lia.
Qed.

Lemma classify_not_amp arg0 :
  classify arg0 <> BUILTIN_NONE -> starts_with_amp arg0 = false.
Proof.
  unfold classify.
  destruct (String.eqb_spec arg0 "quit") as [->|_]; [reflexivity|].
  destruct (String.eqb_spec arg0 "jobs") as [->|_]; [reflexivity|].
  destruct (String.eqb_spec arg0 "bg") as [->|_]; [reflexivity|].
  destruct (String.eqb_spec arg0 "fg") as [->|_]; [reflexivity|]. done.
Qed.

Lemma finish_parse_shape a bg tok :
  finish_parse a = Parsed bg tok ->
  (length (argv tok) <= length (a_argv a))%nat
  /\ (bg = 0 \/ bg = 1)
  /\ (bg = 0 -> argv tok <> [])
  /\ (forall arg0 rest, argv tok = arg0 :: rest -> builtins tok = classify arg0)
  /\ (builtins tok <> BUILTIN_NONE -> argv tok <> []).
Proof.
  unfold finish_parse. destruct (negb _); [discriminate|].
  destruct (a_argv a) as [|arg0 rest] eqn:Hargv.
  { intros [= <- <-]. cbn [argv builtins length].
    refine (conj _ (conj _ (conj _ (conj _ _)))); auto; try done. }
  destruct (starts_with_amp (List.last (arg0 :: rest) EmptyString)) eqn:Hamp;
    intros [= <- <-]; cbn [argv builtins].
  - destruct rest as [|arg1 rest].
    + cbn in Hamp. cbn [removelast length].
      refine (conj _ (conj _ (conj _ (conj _ _)))); auto; try done.
      intros Hb. apply classify_not_amp in Hb. congruence.
    + change (removelast (arg0 :: arg1 :: rest))
        with (arg0 :: removelast (arg1 :: rest)).
      refine (conj _ (conj _ (conj _ (conj _ _)))); auto; try done.
      * rewrite (removelast_firstn_len (arg1 :: rest)). cbn [length Init.Nat.pred].
        rewrite length_take. lia.
      * by intros ? ? [= <- _].
  - refine (conj _ (conj _ (conj _ (conj _ _)))); auto; try done.
    by intros ? ? [= <- _].
Qed.

(** X10.  What [parseline] hands to [eval] when it reports no error: at
    most [MAXARGS - 1] arguments, so that the terminating null pointer
    fits the array; the value 0 or 1; with 0 at least one argument; the
    builtin code of the first argument; and a builtin code other than
    [BUILTIN_NONE] only together with a first argument. *)
Theorem parseline_result_shape (line : string) (bg : Z) (tok : cmdline_tokens) :
  parse line = Parsed bg tok ->
  argc tok <= MAXARGS - 1
  /\ (bg = 0 \/ bg = 1)
  /\ (bg = 0 -> argv tok <> [])
  /\ (forall arg0 rest, argv tok = arg0 :: rest -> builtins tok = classify arg0)
  /\ (builtins tok <> BUILTIN_NONE -> argv tok <> []).
Proof.
  unfold parse.
  destruct (scan _ line _) as [[msg|a]|] eqn:Hscan; try discriminate.
  intros Hfinish. apply scan_argc in Hscan; [|cbn; unfold MAXARGS; lia].
  destruct (finish_parse_shape _ _ _ Hfinish) as (Hlen & Hrest).
  split; [unfold argc; lia|exact Hrest].
Qed.

Lemma parseline_result_shape_witness :
  argc (Tokens ["/bin/ls"; "-l"] None None BUILTIN_NONE) <= MAXARGS - 1
  /\ (1 = 0 \/ 1 = 1)
  /\ (1 = 0 -> argv (Tokens ["/bin/ls"; "-l"] None None BUILTIN_NONE) <> [])
  /\ (forall arg0 rest,
        argv (Tokens ["/bin/ls"; "-l"] None None BUILTIN_NONE) = arg0 :: rest ->
        builtins (Tokens ["/bin/ls"; "-l"] None None BUILTIN_NONE) = classify arg0)
  /\ (builtins (Tokens ["/bin/ls"; "-l"] None None BUILTIN_NONE) <> BUILTIN_NONE ->
      argv (Tokens ["/bin/ls"; "-l"] None None BUILTIN_NONE) <> []).
Proof.
  apply (parseline_result_shape "/bin/ls -l &" 1). vm_compute. reflexivity.
Defined.

(** X11.  A line of white space only is ignored: [eval] returns and the
    shell is as before, no output, no fork, no change of the mask. *)
Theorem eval_ignores_blank_line (line : string) (env : environment) (s : shell) :
  skip_delims line = EmptyString ->
  eval line env s = Ret tt s.
Proof.
  intros Hblank. unfold eval, parseline, parse. cbn [scan]. rewrite Hblank.
  reflexivity.
Qed.

Lemma eval_ignores_blank_line_witness :
  eval (String " " (String tab " ")) (quiet 100) suspended = Ret tt suspended.
Proof. apply eval_ignores_blank_line. reflexivity. Defined.

Lemma upto_delim_word w next :
  no_delim w = true ->
  match next with String c _ => is_delim c = true | EmptyString => True end ->
  upto_delim (w +:+ next) = (w, next).
Proof.
  intros Hw Hnext. induction w as [|c w IH].
  - change (EmptyString +:+ next) with next.
    destruct next as [|d next]; [reflexivity|]. cbv beta iota in Hnext.
    cbn [upto_delim]. by rewrite Hnext.
  - change (String c w +:+ next) with (String c (w +:+ next)).
    cbn [no_delim] in Hw. apply andb_prop in Hw as [Hc Hw].
    apply negb_true_iff in Hc. cbn [upto_delim]. rewrite Hc, (IH Hw). reflexivity.
Qed.

Lemma unwords_cons w ws :
  exists next,
    unwords (w :: ws) = w +:+ next
    /\ after next = unwords ws
    /\ match next with String c _ => is_delim c = true | EmptyString => True end.
Proof.
  destruct ws as [|w' ws].
  - exists EmptyString. cbn [unwords]. split; [|done].
    induction w as [|c w IH]; [reflexivity|].
    change (String c w +:+ EmptyString) with (String c (w +:+ EmptyString)).
    congruence.
  - exists (String " " (unwords (w' :: ws))). done.
Qed.

Lemma length_append (u v : string) :
  String.length (u +:+ v) = (String.length u + String.length v)%nat.
Proof.
  induction u as [|c u IH]; [reflexivity|].
  change (String c u +:+ v) with (String c (u +:+ v)).
  cbn [String.length]. by rewrite IH.
Qed.

(** The loop on plain words separated by single spaces: each becomes the
    next argument. *)
Lemma scan_plain_words ws : forall fuel a,
  Forall (fun w => plain_word w = true) ws ->
  a_state a = ST_NORMAL ->
  Z.of_nat (length (a_argv a)) + Z.of_nat (length ws) <= MAXARGS - 1 ->
  (String.length (unwords ws) < fuel)%nat ->
  scan fuel (unwords ws) a
  = Some (inr (Acc (a_argv a ++ ws) (a_infile a) (a_outfile a) ST_NORMAL)).
Proof.
  induction ws as [|w ws IH]; intros fuel a Hplain Hstate Hlen Hfuel.
  { destruct fuel as [|fuel]; [lia|]. cbn. rewrite app_nil_r.
    destruct a; cbn in *. congruence. }
  destruct fuel as [|fuel]; [lia|].
  inversion Hplain as [|? ? Hw Hws]; subst.
  destruct (unwords_cons w ws) as (next & Heq & Hafter & Hnext).
  rewrite Heq in *. clear Heq.
  destruct w as [|c w]; [discriminate|].
  unfold plain_word in Hw.
  do 4 (apply andb_prop in Hw as [Hw ?]).
  repeat match goal with
    | H : negb _ = true |- _ => apply negb_true_iff in H
    end.
  pose proof Hw as Hnd. cbn [no_delim] in Hnd.
  apply andb_prop in Hnd as [Hc _]. apply negb_true_iff in Hc.
  cbn [scan]. change (String c w +:+ next) with (String c (w +:+ next)).
  cbn [skip_delims]. rewrite Hc.
  repeat match goal with
    | H : Ascii.eqb c _ = false |- _ => rewrite H
    end.
  cbn [orb]. change (String c (w +:+ next)) with (String c w +:+ next).
  rewrite (upto_delim_word _ _ Hw Hnext).
  unfold record_token. rewrite Hstate. change (ST_NORMAL =? ST_NORMAL) with true.
  cbv iota. cbn [a_argv]. rewrite length_app. cbn [length].
  cbn [length] in Hlen. rewrite length_append in Hfuel. cbn [String.length] in Hfuel.
  destruct (Z.geb_spec (Z.of_nat (length (a_argv a) + 1)) (MAXARGS - 1)) as [Hfull|Hroom].
  - assert (ws = []) as -> by (destruct ws; [done|cbn [length] in Hlen; lia]).
    reflexivity.
  - rewrite Hafter. rewrite IH; cbn [a_argv a_infile a_outfile a_state]; try done.
    + by rewrite <- app_assoc.
    + rewrite length_app. cbn [length]. lia.
    + rewrite <- Hafter. pose proof (after_length next). lia.
Qed.

(** X12.  A line of plain words separated by single spaces is split
    into exactly these words: no redirection, the builtin code of the
    first word, and the value 1 with the last word dropped when the last
    word starts with the background marker, the value 0 with every word
    kept otherwise. *)
Theorem parseline_plain_words (ws : list string) :
  ws <> [] ->
  Forall (fun w => plain_word w = true) ws ->
  Z.of_nat (length ws) <= MAXARGS - 1 ->
  Z.of_nat (String.length (unwords ws)) < MAXLINE ->
  parse (unwords ws)
  = if starts_with_amp (List.last ws EmptyString)
    then Parsed 1 (Tokens (removelast ws) None None (classify (hd EmptyString ws)))
    else Parsed 0 (Tokens ws None None (classify (hd EmptyString ws))).
Proof.
  intros Hne Hplain Hlen _. unfold parse.
  rewrite scan_plain_words; cbn [a_argv a_infile a_outfile a_state length app];
    try done; try lia.
  unfold finish_parse. cbn [a_argv a_infile a_outfile a_state].
  change (negb (ST_NORMAL =? ST_NORMAL)) with false. cbv iota.
  destruct ws as [|w ws]; [done|]. reflexivity.
Qed.

Lemma parseline_plain_words_witness :
  parse (unwords ["/bin/sleep"; "10"; "&"])
  = if starts_with_amp (List.last ["/bin/sleep"; "10"; "&"] EmptyString)
    then Parsed 1 (Tokens (removelast ["/bin/sleep"; "10"; "&"]) None None
                     (classify (hd EmptyString ["/bin/sleep"; "10"; "&"])))
    else Parsed 0 (Tokens ["/bin/sleep"; "10"; "&"] None None
                     (classify (hd EmptyString ["/bin/sleep"; "10"; "&"]))).
Proof.
  apply (parseline_plain_words ["/bin/sleep"; "10"; "&"]).
  - discriminate.
  - repeat constructor.
  - vm_compute. discriminate.
  - vm_compute. reflexivity.
Defined.

(** ** The evaluator *)

Lemma bind_ret_inv {A B} (c : M A) (k : A -> M B) s b s' :
  bind c k s = Ret b s' ->
  exists a s1, c s = Ret a s1 /\ k a s1 = Ret b s'.
Proof.
  unfold bind. destruct (c s) as [a s1|code s1|s1]; try discriminate.
  intros Hk. by exists a, s1.
Qed.

Lemma restores_bind {A B} (c : M A) (k : A -> M B) :
  restores c -> (forall a, restores (k a)) -> restores (bind c k).
Proof.
  intros Hc Hk s b s' Hrun.
  apply bind_ret_inv in Hrun as (a & s1 & Hfirst & Hrest).
  apply Hc in Hfirst. apply Hk in Hrest. congruence.
Qed.

Lemma restores_when (b : bool) (c : M unit) :
  restores c -> restores (when b c).
Proof.
  intros Hc. destruct b; [exact Hc|]. intros s a s' [= _ <-]. reflexivity.
Qed.

Lemma restores_printf text : restores (printf text).
Proof. intros s a s' [= _ <-]. reflexivity. Qed.

Lemma restores_emit e : restores (emit e).
Proof. intros s a s' [= _ <-]. reflexivity. Qed.

Lemma restores_listjobs : restores listjobs.
Proof. intros s a s' [= _ <-]. reflexivity. Qed.

Lemma restores_addjob p st cmd : restores (addjob p st cmd).
Proof.
  intros s a s'. unfold addjob. destruct (p <? 1); [by intros [= _ <-]|]. run.
  destruct (first_slot _ _) as [[i j]|]; run;
    [destruct (verbose s); run|]; by intros [= _ <-].
Qed.

Lemma restores_execbg tok junk : restores (execbg tok junk).
Proof.
  intros s a s'. unfold execbg. destruct (argc tok =? 2); [|by intros [= _ <-]].
  run. destruct (getjobpid _ _) as [[i j]|]; run; [by intros [= _ <-]|].
  destruct (sscanf_c_d _) as [[c n]|]; [|by intros [= _ <-]].
  destruct (getjobjid _ _) as [[i j]|]; run; by intros [= _ <-].
Qed.

Lemma restores_execfg tok junk : restores (execfg tok junk).
Proof.
  intros s a s'. unfold execfg. destruct (argc tok =? 2); [|by intros [= _ <-]].
  run. destruct (getjobpid _ _) as [[i j]|]; run; [by intros [= _ <-]|].
  destruct (sscanf_c_d _) as [[c n]|]; [|by intros [= _ <-]].
  destruct (getjobjid _ _) as [[i j]|]; run; by intros [= _ <-].
Qed.

Lemma restores_builtin_command tok junk : restores (builtin_command tok junk).
Proof.
  intros s a s'. unfold builtin_command.
  destruct (infile tok), (outfile tok), (builtins tok); run;
    try discriminate;
    try (by intros [= _ <-]);
    try (by destruct (String.eqb _ _); intros [= _ <-]);
    intros Hrun;
    first [ by apply restores_execbg in Hrun | by apply restores_execfg in Hrun ].
Qed.

Lemma restores_parseline line : restores (parseline line).
Proof.
  intros s a s'. unfold parseline.
  destruct (parse line); run; by intros [= _ <-].
Qed.

Lemma restores_wait_fg prev sched : forall committed,
  restores (wait_fg prev committed sched).
Proof.
  induction sched as [|[m d] rest IH]; intros committed s a s'; cbn [wait_fg]; run.
  - destruct (negb committed && _); [by intros [= _ <-]|discriminate].
  - destruct (negb committed && _); [by intros [= _ <-]|].
    destruct m; run;
      repeat match goal with
        | |- context [if negb ?b then _ else _] => destruct b; cbn [negb]
        end;
      try apply IH;
      (destruct (handle d s) as [[] s1|c s1|s1] eqn:Hd; [|discriminate..]);
      apply handle_sigmask in Hd; intros Hrest; apply IH in Hrest; congruence.
Qed.

Lemma restores_reap_early prev child early :
  restores (reap_early prev child early).
Proof.
  intros s a s'. unfold reap_early.
  destruct early as [w|]; [destruct (sigismember prev SIGCHLD)|];
    try (by intros [= _ <-]).
  destruct a. apply handle_sigmask.
Qed.

(** X13.  When [eval] returns, the signal mask of the shell is the one
    it was called with, whatever the line; and if the line was an
    external command to run in the foreground, no job is in the
    foreground state any more. *)
Theorem eval_returns_mask_and_foreground
    (line : string) (env : environment) (s s' : shell) :
  eval line env s = Ret tt s' ->
  sigmask s' = sigmask s
  /\ (forall tok, parse line = Parsed 0 tok -> external tok ->
        fgpid (job_list s') = 0).
Proof.
  intros Hrun. split.
  - revert Hrun. unfold eval. cbv zeta. intros Hrun.
    apply bind_ret_inv in Hrun as (r & s1 & Hparse & Hrun).
    apply restores_parseline in Hparse.
    destruct r as [msg|bg tok]; [injection Hrun as <-; done|].
    destruct (argv tok) as [|a0 rest]; [injection Hrun as <-; done|].
    apply bind_ret_inv in Hrun as (? & s2 & H2 & Hrun).
    apply (restores_when _ _ (restores_emit _)) in H2.
    apply bind_ret_inv in Hrun as (? & s3 & H3 & Hrun).
    apply (restores_when _ _ (restores_emit _)) in H3.
    apply bind_ret_inv in Hrun as (prev & s4 & H4 & Hrun).
    injection H4 as Hprev _.
    apply bind_ret_inv in Hrun as (b & s5 & H5 & Hrun).
    apply bind_ret_inv in Hrun as (? & s6 & H6 & Hrun).
    apply bind_ret_inv in Hrun as (? & s7 & H7 & Hrun).
    apply (restores_when _ _ (restores_emit _)) in H7.
    apply (restores_when _ _ (restores_emit _)) in Hrun.
    assert (Hmask : sigmask s6 = prev).
    { destruct (b =? 0); [|by injection H6 as _ <-].
      apply bind_ret_inv in H6 as (? & s8 & _ & H6).
      apply bind_ret_inv in H6 as (? & s9 & _ & H6).
      apply bind_ret_inv in H6 as (? & s10 & H10 & H6).
      injection H10 as _ <-.
      destruct (bg =? 0).
      - by apply restores_wait_fg in H6.
      - apply bind_ret_inv in H6 as (? & s11 & H11 & H6).
        apply restores_reap_early in H11.
        apply bind_ret_inv in H6 as (? & s12 & H12 & H6).
        injection H12 as _ <-. apply restores_printf in H6.
        by rewrite H6, H11. }
    congruence.
  - intros tok Hparse Hext. rewrite (eval_external _ _ _ _ _ Hparse Hext) in Hrun.
    apply bind_ret_inv in Hrun as (? & s1 & _ & Hrun).
    unfold after_addjob in Hrun.
    apply bind_ret_inv in Hrun as (? & s2 & _ & Hrun).
    apply bind_ret_inv in Hrun as (? & s3 & Hwait & Hrun).
    change (0 =? 0) with true in Hwait. cbv iota in Hwait.
    match type of Hwait with _ = Ret ?u _ => destruct u end.
    apply wait_fg_returns_clear in Hwait. by injection Hrun as <-.
Qed.

Lemma eval_returns_mask_and_foreground_witness :
  sigmask (final (eval "/bin/ls" late_exit (startup false)))
  = sigmask (startup false)
  /\ (forall tok, parse "/bin/ls" = Parsed 0 tok -> external tok ->
        fgpid (job_list (final (eval "/bin/ls" late_exit (startup false)))) = 0).
Proof.
  apply (eval_returns_mask_and_foreground "/bin/ls" late_exit (startup false)).
  vm_compute. reflexivity.
Defined.

(** A builtin code is only set together with a first argument. *)
Lemma parse_builtin_argv line bg tok :
  parse line = Parsed bg tok ->
  builtins tok <> BUILTIN_NONE ->
  exists arg0 rest, argv tok = arg0 :: rest.
Proof.
  unfold parse. destruct (scan _ line _) as [[msg|a]|]; try discriminate.
  intros Hfinish Hb.
  destruct (finish_parse_shape _ _ _ Hfinish) as (_ & _ & _ & _ & Hargv).
  destruct (argv tok) as [|arg0 rest]; [by apply Hargv in Hb|]. by exists arg0, rest.
Qed.

(** X14.  The quit builtin ends the shell with exit status 0 from inside
    [builtin_command]: a redirection of the line is opened first, but
    no signal is sent to any job, the job table is not touched, and
    nothing is printed. *)
Theorem quit_exits_at_once
    (line : string) (env : environment) (s : shell) (bg : Z) (tok : cmdline_tokens) :
  parse line = Parsed bg tok ->
  builtins tok = BUILTIN_QUIT ->
  eval line env s
  = Halt 0 {| job_list := job_list s; nextjid := nextjid s; verbose := verbose s;
              sigmask := sigmask s ++ eval_mask;
              trace := trace s ++ saved tok ++ redirected tok |}.
Proof.
  intros Hparse Hquit.
  destruct (parse_builtin_argv _ _ _ Hparse) as (arg0 & rest & Hargv);
    [by rewrite Hquit|].
  unfold eval, parseline. rewrite Hparse. run. rewrite Hargv.
  unfold saved, redirected.
  destruct (infile tok) eqn:Hin, (outfile tok) eqn:Hout; run;
    unfold builtin_command; rewrite Hquit, Hin, Hout; run;
    unfold eval_mask; flatten_trace; rewrite ?app_nil_r; reflexivity.
Qed.

Lemma quit_exits_at_once_witness :
  eval "quit" (quiet 0) suspended
  = Halt 0 {| job_list := job_list suspended; nextjid := nextjid suspended;
              verbose := verbose suspended;
              sigmask := sigmask suspended ++ eval_mask;
              trace := trace suspended
                       ++ saved (Tokens ["quit"] None None BUILTIN_QUIT)
                       ++ redirected (Tokens ["quit"] None None BUILTIN_QUIT) |}.
Proof.
  apply (quit_exits_at_once "quit" (quiet 0) suspended 0
           (Tokens ["quit"] None None BUILTIN_QUIT)); reflexivity.
Defined.

(** X15.  The jobs builtin, on a well-formed table: [eval] returns, and
    the only change to the shell is the trace, which gains the
    descriptor events of the line and, between them, the three pieces of
    the line of every occupied slot, in slot order. *)
Theorem jobs_builtin_lists_the_table
    (line : string) (env : environment) (s : shell) (bg : Z) (tok : cmdline_tokens) :
  wf s ->
  parse line = Parsed bg tok ->
  builtins tok = BUILTIN_JOBS ->
  eval line env s
  = Ret tt {| job_list := job_list s; nextjid := nextjid s; verbose := verbose s;
              sigmask := sigmask s;
              trace := trace s ++ saved tok ++ redirected tok
                       ++ concat (job_line <$> filter (fun j => pid j <> 0) (job_list s))
                       ++ restored tok |}.
Proof.
  intros (_ & Hall & _) Hparse Hjobs.
  destruct (parse_builtin_argv _ _ _ Hparse) as (arg0 & rest & Hargv);
    [by rewrite Hjobs|].
  rewrite <- (listjobs_lines (job_list s) 0 Hall).
  unfold eval, parseline. rewrite Hparse. run. rewrite Hargv.
  unfold saved, redirected, restored.
  destruct (infile tok) eqn:Hin, (outfile tok) eqn:Hout; run;
    unfold builtin_command; rewrite Hjobs, Hin, Hout; run;
    unfold listjobs; run; flatten_trace; rewrite ?app_nil_r; reflexivity.
Qed.

Lemma jobs_builtin_lists_the_table_witness :
  eval "jobs" (quiet 0) suspended
  = Ret tt {| job_list := job_list suspended; nextjid := nextjid suspended;
              verbose := verbose suspended; sigmask := sigmask suspended;
              trace := trace suspended
                       ++ saved (Tokens ["jobs"] None None BUILTIN_JOBS)
                       ++ redirected (Tokens ["jobs"] None None BUILTIN_JOBS)
                       ++ concat (job_line <$> filter (fun j => pid j <> 0)
                                                 (job_list suspended))
                       ++ restored (Tokens ["jobs"] None None BUILTIN_JOBS) |}.
Proof.
  apply (jobs_builtin_lists_the_table "jobs" (quiet 0) suspended 0
           (Tokens ["jobs"] None None BUILTIN_JOBS));
    [exact suspended_wf|reflexivity..].
Defined.

(** ** Signals from the keyboard *)

Lemma fgpid_range s : wf s -> fgpid (job_list s) = 0 \/ 1 <= fgpid (job_list s).
Proof.
  intros Hwf. unfold fgpid.
  destruct (first_slot _ _) as [[i j]|] eqn:Hslot; [|by left].
  destruct (wf_found _ _ _ _ Hwf Hslot) as ([->|(Hp & _)] & Hfg);
    [discriminate|by right].
Qed.

(** X16.  The handlers of SIGINT and SIGTSTP pass the signal on and do
    nothing else to the shell: on a well-formed table they return, only
    the trace has grown, and what was sent is the same signal, once, to
    the process group of the foreground job, or nothing when there is
    no foreground job. *)
Theorem keyboard_signal_forwarded (d : delivery) (s : shell) :
  wf s ->
  d = Sigint \/ d = Sigtstp ->
  exists out,
    handle d s = Ret tt (with_trace (trace s ++ out) s)
    /\ signals_sent out
       = if fgpid (job_list s) =? 0 then []
         else [(- fgpid (job_list s), signal_of d)].
Proof.
  intros Hwf Hd.
  assert (Htest : fgpid (job_list s) = 0
                  \/ ((fgpid (job_list s) >? 0) = true
                      /\ (fgpid (job_list s) =? 0) = false)).
  { destruct (fgpid_range s Hwf) as [Hz|Hpos]; [by left|right]. split.
    - apply Z.gtb_lt. lia.
    - apply Z.eqb_neq. lia. }
  clear Hwf. destruct s as [jobs n v m t]. cbn [job_list trace] in *.
  destruct Hd as [-> | ->]; cbn [handle signal_of];
    unfold sigint_handler, sigtstp_handler; cbv zeta; run;
    destruct v; run;
    (destruct Htest as [-> | [-> ->]]); change (0 >? 0) with false; run;
    flatten_trace;
    first [ by (exists []; rewrite app_nil_r)
          | eexists; split; reflexivity ].
Qed.

Lemma keyboard_signal_forwarded_witness :
  exists out,
    handle Sigint (state_after [Line "/bin/sleep 60" (Env 100 0 [] None)])
    = Ret tt (with_trace
                (trace (state_after [Line "/bin/sleep 60" (Env 100 0 [] None)]) ++ out)
                (state_after [Line "/bin/sleep 60" (Env 100 0 [] None)]))
    /\ signals_sent out
       = if fgpid (job_list (state_after [Line "/bin/sleep 60" (Env 100 0 [] None)])) =? 0
         then []
         else [(- fgpid (job_list (state_after [Line "/bin/sleep 60" (Env 100 0 [] None)])),
                signal_of Sigint)].
Proof.
  apply (keyboard_signal_forwarded Sigint
           (state_after [Line "/bin/sleep 60" (Env 100 0 [] None)])).
  - apply shell_run_wf. apply wf_initial.
  - by left.
Defined.

(** ** A foreground command from start to end *)

Lemma first_slot_fresh jobs i j0 new :
  jobs !! i = Some j0 ->
  ¬ tracked jobs (pid new) ->
  first_slot (fun j => pid j = pid new) (<[i := new]> jobs) = Some (i, new).
Proof.
  intros Hlook Hnew. unfold first_slot. apply list_find_Some.
  split; [|split; [done|]].
  - apply list_lookup_insert_eq. by eapply lookup_lt_Some.
  - intros k j Hk Hlt Hj. rewrite list_lookup_insert_ne in Hk by lia.
    apply Hnew. exists j. split; [|done]. by eapply list_elem_of_lookup_2.
Qed.

Lemma no_foreground_slot s :
  wf s -> fgpid (job_list s) = 0 ->
  list_find (fun j => state j = FG) (job_list s) = None.
Proof.
  intros Hwf Hfg. unfold fgpid in Hfg.
  destruct (first_slot _ _) as [[k j]|] eqn:Hslot; [|exact Hslot].
  destruct (wf_found _ _ _ _ Hwf Hslot) as ([->|(Hp & _)] & Hstate);
    [discriminate|lia].
Qed.

Lemma sigchld_handler_effect avail s :
  Forall (fun pw : Z * wstatus => 0 < pw.1) avail ->
  exists s', sigchld_handler avail s = Ret tt s'
    /\ job_list s' = fold_left status_change avail (job_list s)
    /\ verbose s' = verbose s /\ sigmask s' = sigmask s.
Proof.
  intros Hpos. unfold sigchld_handler. run.
  destruct (verbose s) eqn:Hv; run.
  - destruct (reap_all_effect avail
                (with_trace (trace s ++ [Output ("sigchld_handler: entering" +:+ nl)]) s)
                Hpos) as (s1 & Hreap & Hjobs & Hv1 & Hm1).
    unfold with_trace in Hreap. rewrite Hreap. run. eexists. split; [reflexivity|].
    cbn [job_list verbose sigmask]. cbn [job_list verbose sigmask with_trace] in *.
    repeat split; congruence.
  - destruct (reap_all_effect avail s Hpos) as (s1 & Hreap & Hjobs & Hv1 & Hm1).
    rewrite Hreap. exists s1. repeat split; congruence.
Qed.

(** X17.  A foreground command whose child changes status while the
    evaluator is suspended.  On a well-formed table with a free slot
    and no foreground job, with SIGCHLD not blocked by the caller, for
    a new positive pid: [eval] returns once the handler has recorded
    that the child exited, was killed or was stopped.  An exited or
    killed child leaves the table exactly as it was before the command;
    a stopped child is left in the slot that was the first free one,
    with the job id of the counter, in the state ST.  The mask is the
    caller's again. *)
Theorem foreground_command_lifecycle
    (line : string) (tok : cmdline_tokens) (env : environment) (s : shell)
    (w : wstatus) :
  wf s ->
  parse line = Parsed 0 tok ->
  external tok ->
  1 <= fork_pid env ->
  ¬ tracked (job_list s) (fork_pid env) ->
  ¬ table_full (job_list s) ->
  fgpid (job_list s) = 0 ->
  sigismember (sigmask s) SIGCHLD = false ->
  schedule env = [(Asleep, Sigchld [(fork_pid env, w)])] ->
  w <> WContinued ->
  exists i s',
    first_slot (fun j => pid j = 0) (job_list s) = Some (i, empty_slot)
    /\ eval line env s = Ret tt s'
    /\ job_list s'
       = match w with
         | WStopped _ =>
             <[i := Job (fork_pid env) (nextjid s) ST line]> (job_list s)
         | _ => job_list s
         end
    /\ sigmask s' = sigmask s.
Proof.
  intros Hwf Hparse Hext Hp Hnew Hfree Hfg Hmask Hsched Hw.
  assert (Hex : Exists (fun j => pid j = 0) (job_list s)).
  { apply not_Forall_Exists in Hfree; [|intros j; apply _].
    eapply Exists_impl; [exact Hfree|]. intros j Hj. cbn in Hj.
    destruct (decide (pid j = 0)); [done|]. by destruct Hj. }
  destruct (first_slot_some (fun j => pid j = 0) _ Hex)
    as (i & j0 & Hslot & Hlook & Hzero).
  assert (Hclear : j0 = empty_slot).
  { destruct (wf_found _ _ _ _ Hwf Hslot) as ([->|(? & _)] & _); [done|lia]. }
  subst j0. exists i.
  pose proof (no_foreground_slot s Hwf Hfg) as Hnofg.
  set (new := Job (fork_pid env) (nextjid s) FG line).
  assert (Hfound : first_slot (fun j => pid j = fork_pid env)
                     (<[i := new]> (job_list s)) = Some (i, new))
    by (by apply (first_slot_fresh _ _ empty_slot new)).
  assert (Hfgnew : fgpid (<[i := new]> (job_list s)) = fork_pid env).
  { unfold fgpid, first_slot.
    assert (Hfirst : list_find (fun j => state j = FG) (<[i := new]> (job_list s))
                     = Some (i, new)); [|by rewrite Hfirst].
    apply list_find_Some. split; [|split; [done|]].
    - apply list_lookup_insert_eq. by eapply lookup_lt_Some.
    - intros k j Hk Hlt. rewrite list_lookup_insert_ne in Hk by lia.
      apply list_find_None in Hnofg. rewrite Forall_forall in Hnofg.
      apply Hnofg. by eapply list_elem_of_lookup_2. }
  rewrite (eval_external _ _ _ _ _ Hparse Hext).
  change (0 =? 0) with true. cbv iota. unfold bind at 1.
  match goal with
  | |- context [addjob ?p ?st ?cmd ?s0] =>
      rewrite (addjob_free p st cmd s0 i empty_slot Hp Hslot)
  end.
  unfold after_addjob. rewrite Hsched. run. cbn [wait_fg]. run.
  fold new. rewrite Hfgnew.
  replace (fork_pid env =? 0) with false by (symmetry; apply Z.eqb_neq; lia).
  cbn [negb andb signal_of]. rewrite Hmask. cbn [negb handle].
  match goal with
  | |- context [sigchld_handler ?avail ?st] =>
      destruct (sigchld_handler_effect avail st) as (s2 & -> & Hjobs & _ & Hm2);
        [by repeat constructor; cbn; lia|]
  end.
  cbn [job_list sigmask fold_left] in Hjobs, Hm2.
  assert (Hafter : job_list s2
                   = match w with
                     | WStopped _ =>
                         <[i := Job (fork_pid env) (nextjid s) ST line]> (job_list s)
                     | _ => job_list s
                     end).
  { rewrite Hjobs. unfold status_change, remove_job, stop_job. cbn [fst snd].
    destruct w; [| | |done];
      rewrite <- first_slot_update, Hfound, list_insert_insert_eq;
      try reflexivity; by apply list_insert_id. }
  assert (Hclearfg : fgpid (job_list s2) = 0).
  { rewrite Hafter. destruct w; try exact Hfg.
    unfold fgpid, first_slot. rewrite list_find_insert_other; [by rewrite Hnofg|done|].
    intros y Hy. assert (y = empty_slot) as -> by congruence. done. }
  run. rewrite Hclearfg. run.
  eexists. split; [exact Hslot|]. split; [reflexivity|].
  cbn [job_list sigmask]. by split.
Qed.

Lemma foreground_command_lifecycle_witness :
  exists i s',
    first_slot (fun j => pid j = 0) (job_list (startup false)) = Some (i, empty_slot)
    /\ eval "/bin/ls" late_exit (startup false) = Ret tt s'
    /\ job_list s' = job_list (startup false)
    /\ sigmask s' = sigmask (startup false).
Proof.
  apply (foreground_command_lifecycle "/bin/ls"
           (Tokens ["/bin/ls"] None None BUILTIN_NONE) late_exit (startup false)
           (WExited 0)).
  - apply wf_initial.
  - reflexivity.
  - split; [reflexivity|]. split; discriminate.
  - cbn. lia.
  - apply startup_untracked. cbn. lia.
  - intros Hfull. inversion Hfull as [|? ? Hne _]. by apply Hne.
  - reflexivity.
  - reflexivity.
  - reflexivity.
  - discriminate.
Defined.

(** ** The SIO routines *)

Lemma swap_ends (a : list ascii) x m y b :
  <[(length a + S (length m))%nat := nth (length a) (a ++ x :: m ++ y :: b) zero]>
    (<[length a := nth (length a + S (length m)) (a ++ x :: m ++ y :: b) zero]>
       (a ++ x :: m ++ y :: b))
  = a ++ y :: m ++ x :: b.
Proof.
  rewrite (nth_lookup_Some _ (length a) zero x)
    by (by apply list_lookup_middle).
  rewrite (nth_lookup_Some _ (length a + S (length m)) zero y).
  2:{ change (a ++ x :: m ++ y :: b) with (a ++ (x :: m) ++ y :: b).
      rewrite app_assoc. apply list_lookup_middle.
      rewrite length_app. cbn [length]. lia. }
  replace (length a) with (length a + 0)%nat at 2 by lia.
  rewrite insert_app_r.
  change (<[0%nat := y]> (x :: m ++ y :: b)) with (y :: m ++ y :: b).
  rewrite insert_app_r. f_equal.
  change (<[S (length m) := x]> (y :: m ++ y :: b))
    with (y :: <[length m := x]> (m ++ y :: b)).
  f_equal. replace (length m) with (length m + 0)%nat by lia.
  by rewrite insert_app_r.
Qed.

Lemma sio_reverse_loop_spec fuel : forall a m b,
  (length m <= fuel)%nat ->
  sio_reverse_loop fuel (a ++ m ++ b)
    (Z.of_nat (length a)) (Z.of_nat (length a + length m) - 1)
  = a ++ rev m ++ b.
Proof.
  induction fuel as [|fuel IH]; intros a m b Hlen.
  { destruct m; [reflexivity|cbn in Hlen; lia]. }
  cbn [sio_reverse_loop]. cbv zeta.
  destruct m as [|x m]; [|destruct m as [|y m _] using rev_ind].
  - replace (_ <? _) with false by (symmetry; apply Z.ltb_ge; cbn; lia). reflexivity.
  - replace (_ <? _) with false by (symmetry; apply Z.ltb_ge; cbn; lia). reflexivity.
  - cbn [length] in Hlen. rewrite length_app in Hlen. cbn [length] in Hlen.
    replace (_ <? _) with true
      by (symmetry; apply Z.ltb_lt; cbn [length]; rewrite length_app; cbn; lia).
    replace (Z.to_nat (Z.of_nat (length a))) with (length a) by lia.
    replace (Z.to_nat (Z.of_nat (length a + length (x :: m ++ [y])) - 1))
      with (length a + S (length m))%nat
      by (cbn [length]; rewrite length_app; cbn [length]; lia).
    replace (a ++ (x :: m ++ [y]) ++ b) with (a ++ x :: m ++ y :: b)
      by (cbn; by rewrite <- app_assoc).
    rewrite swap_ends.
    replace (a ++ y :: m ++ x :: b) with ((a ++ [y]) ++ m ++ (x :: b))
      by (by rewrite <- app_assoc).
    replace (Z.of_nat (length a) + 1) with (Z.of_nat (length (a ++ [y])))
      by (rewrite length_app; cbn [length]; lia).
    replace (Z.of_nat (length a + length (x :: m ++ [y])) - 1 - 1)
      with (Z.of_nat (length (a ++ [y]) + length m) - 1)
      by (cbn [length]; rewrite !length_app; cbn [length]; lia).
    rewrite IH by lia.
    cbn [rev]. rewrite rev_unit. rewrite <- !app_assoc. reflexivity.
Qed.

Lemma sio_reverse_loop_whole (s : list ascii) :
  sio_reverse_loop (length s) s 0 (Z.of_nat (length s) - 1) = rev s.
Proof.
  pose proof (sio_reverse_loop_spec (length s) [] s [] (le_n _)) as Hloop.
  cbn [app length] in Hloop. rewrite !app_nil_r in Hloop. exact Hloop.
Qed.

(** X18.  [sio_reverse] reverses its string: the swapping loop yields
    the characters in the opposite order, for every length. *)
Theorem sio_reverse_reverses (s : list ascii) : sio_reverse s = rev s.
Proof. unfold sio_reverse. apply sio_reverse_loop_whole. Qed.

Lemma ltoa_digit_value r :
  0 <= r < 10 ->
  digit (ltoa_digit r) = Some r
  /\ Z.of_nat (nat_of_ascii (ltoa_digit r)) - 48 = r.
Proof.
  intros Hr.
  assert (Hcases : r = 0 \/ r = 1 \/ r = 2 \/ r = 3 \/ r = 4 \/ r = 5 \/ r = 6
                   \/ r = 7 \/ r = 8 \/ r = 9) by lia.
  repeat destruct Hcases as [-> | Hcases]; try subst r; by vm_compute.
Qed.

(** The digits the loop writes, least significant first. *)
Lemma sio_ltoa_loop_spec fuel : forall v s,
  (0 < fuel)%nat ->
  0 <= v < 2 ^ Z.of_nat fuel ->
  exists d,
    sio_ltoa_loop fuel v 10 s = s ++ d
    /\ d <> []
    /\ Forall (fun c => is_some (digit c) = true) d
    /\ le_value d = v.
Proof.
  induction fuel as [|fuel IH]; intros v s Hfuel Hv; [lia|]. clear Hfuel.
  rewrite Nat2Z.inj_succ, Z.pow_succ_r in Hv by lia.
  cbn [sio_ltoa_loop]. cbv zeta.
  rewrite Z.rem_mod_nonneg, Z.quot_div_nonneg by lia.
  pose proof (Z.mod_pos_bound v 10 ltac:(lia)) as Hr.
  pose proof (Z.div_mod v 10 ltac:(lia)) as Hdm.
  destruct (ltoa_digit_value _ Hr) as (Hdigit & Hval).
  destruct (Z.gtb_spec (v / 10) 0) as [Hmore|Hlast].
  - destruct (IH (v / 10) (s ++ [ltoa_digit (v mod 10)])) as (d & -> & _ & Hall & Hd);
      [destruct fuel; [cbn in Hv|]; lia|lia|].
    exists (ltoa_digit (v mod 10) :: d). rewrite <- app_assoc.
    split; [reflexivity|]. split; [discriminate|]. split.
    + constructor; [by rewrite Hdigit|exact Hall].
    + cbn [le_value]. lia.
  - exists [ltoa_digit (v mod 10)]. split; [reflexivity|].
    split; [discriminate|]. split.
    + constructor; [by rewrite Hdigit|constructor].
    + cbn [le_value]. assert (v / 10 = 0) by (pose proof (Z.div_pos v 10); lia). lia.
Qed.

Lemma digits_snoc l c : forall acc,
  Forall (fun c => is_some (digit c) = true) l ->
  digits (string_of_list_ascii (l ++ [c])) acc
  = match digit c with
    | Some d => 10 * digits (string_of_list_ascii l) acc + d
    | None => digits (string_of_list_ascii l) acc
    end.
Proof.
  induction l as [|x l IH]; intros acc Hall; cbn [app string_of_list_ascii digits].
  - by destruct (digit c).
  - inversion Hall as [|? ? Hx Hl]; subst.
    destruct (digit x); [|discriminate]. by apply IH.
Qed.

Lemma all_digits_list l :
  Forall (fun c => is_some (digit c) = true) l ->
  all_digits (string_of_list_ascii l) = true.
Proof.
  induction 1 as [|c l Hc _ IH]; [reflexivity|].
  cbn [string_of_list_ascii all_digits]. by rewrite Hc, IH.
Qed.

Lemma digits_rev d :
  Forall (fun c => is_some (digit c) = true) d ->
  digits (string_of_list_ascii (rev d)) 0 = le_value d.
Proof.
  induction 1 as [|c d Hc Hall IH]; [reflexivity|].
  cbn [rev le_value]. rewrite digits_snoc by (by apply Forall_rev).
  unfold digit in *. destruct (_ && _); [|discriminate]. rewrite IH. lia.
Qed.

(** X19.  [sio_ltoa] in base 10, as [sio_putl] calls it.  For a value
    that is not negative it writes a non-empty string of decimal
    digits whose value is the number.  A [%d] conversion reads the
    number back as long as it fits an [int], and reads another number
    from 2147483648 on.  For a negative value [sio_ltoa] writes one
    character and stops: neither a sign nor the magnitude. *)
Theorem sio_ltoa_decimal (v : Z) :
  (0 <= v -> numeral (string_of_list_ascii (sio_ltoa v 10)) = Some v)
  /\ (0 <= v < 2147483648 ->
      sscanf_d (string_of_list_ascii (sio_ltoa v 10)) = Some v)
  /\ (2147483648 <= v ->
      exists n, sscanf_d (string_of_list_ascii (sio_ltoa v 10)) = Some n /\ n < v)
  /\ (v < 0 -> sio_ltoa v 10 = [to_char (Z.rem v 10 + 48)]).
Proof.
  assert (Hnum : 0 <= v ->
            numeral (string_of_list_ascii (sio_ltoa v 10)) = Some v).
  { intros Hv. unfold sio_ltoa, sio_reverse.
    destruct (sio_ltoa_loop_spec (S (Z.to_nat (Z.log2 v))) v [])
      as (d & -> & Hne & Hall & Hval); [lia| |].
    { split; [done|]. rewrite Nat2Z.inj_succ, Z2Nat.id by apply Z.log2_nonneg.
      destruct (Z.eq_dec v 0) as [->|Hnz]; [by vm_compute|].
      apply Z.log2_spec. lia. }
    cbn [app]. rewrite sio_reverse_loop_whole.
    unfold numeral.
    rewrite all_digits_list by (by apply Forall_rev).
    rewrite digits_rev, Hval by done.
    destruct d as [|c d] using rev_ind; [done|].
    rewrite rev_unit. reflexivity. }
  split; [exact Hnum|]. split; [|split].
  - intros Hv. apply conv_d_numeral; [apply Hnum|]; lia.
  - intros Hv. eexists. split; [apply conv_d_digits, Hnum; lia|].
    pose proof (to_int_range (strtol_range v)). lia.
  - intros Hv. unfold sio_ltoa.
    replace (Z.to_nat (Z.log2 v)) with 0%nat
      by (rewrite Z.log2_nonpos; [reflexivity|lia]).
    cbn [sio_ltoa_loop]. cbv zeta.
    replace (Z.quot v 10 >? 0) with false.
    2:{ symmetry. rewrite Z.gtb_ltb. apply Z.ltb_ge.
        pose proof (Z.quot_opp_l v 10 ltac:(lia)) as Hq.
        pose proof (Z.quot_pos (- v) 10 ltac:(lia) ltac:(lia)). lia. }
    unfold ltoa_digit.
    replace (Z.rem v 10 <? 10) with true; [reflexivity|].
    symmetry. apply Z.ltb_lt.
    pose proof (Z.rem_bound_pos_neg v 10 ltac:(lia) ltac:(lia)). lia.
Qed.

(** ** The read/eval loop of main *)

Lemma append_assoc (u v w : string) : (u +:+ v) +:+ w = u +:+ (v +:+ w).
Proof.
  induction u as [|c u IH]; [reflexivity|].
  change (String c ((u +:+ v) +:+ w) = String c (u +:+ (v +:+ w))). by rewrite IH.
Qed.

Lemma fgets_line l rest : forall n,
  one_line l = true ->
  (String.length l < n)%nat ->
  fgets n (l +:+ nl +:+ rest) = (l +:+ nl, rest, false).
Proof.
  induction l as [|c l IH]; intros n Hone Hlen.
  - destruct n as [|n]; [cbn in Hlen; lia|]. reflexivity.
  - destruct n as [|n]; [cbn in Hlen; lia|].
    cbn [one_line] in Hone. apply andb_prop in Hone as [Hc Hone].
    apply negb_true_iff in Hc.
    change (String c l +:+ nl +:+ rest) with (String c (l +:+ nl +:+ rest)).
    cbn [fgets]. rewrite Hc, IH by (cbn in Hlen; done || lia). reflexivity.
Qed.

Lemma fgets_tail tail : forall n,
  one_line tail = true ->
  (String.length tail < n)%nat ->
  fgets n tail = (tail, EmptyString, true).
Proof.
  induction tail as [|c l IH]; intros n Hone Hlen.
  - destruct n as [|n]; [cbn in Hlen; lia|]. reflexivity.
  - destruct n as [|n]; [cbn in Hlen; lia|].
    cbn [one_line] in Hone. apply andb_prop in Hone as [Hc Hone].
    apply negb_true_iff in Hc.
    cbn [fgets]. rewrite Hc, IH by (cbn in Hlen; done || lia). reflexivity.
Qed.

Lemma drop_last_line l : drop_last (l +:+ nl) = l.
Proof.
  induction l as [|c l IH]; [reflexivity|].
  change (String c l +:+ nl) with (String c (l +:+ nl)).
  cbn [drop_last]. rewrite IH. destruct l; reflexivity.
Qed.

Lemma c_str_line l : lacks zero l = true -> c_str (l +:+ nl) = l +:+ nl.
Proof.
  induction l as [|c l IH]; intros Hfree; [reflexivity|].
  change (String c l +:+ nl) with (String c (l +:+ nl)).
  cbn [lacks] in Hfree. apply andb_prop in Hfree as [Hc Hfree].
  apply negb_true_iff in Hc. cbn [c_str]. by rewrite Hc, IH.
Qed.

(** A line without a NUL is evaluated as read, less its newline. *)
Lemma chop_line l : lacks zero l = true -> chop (l +:+ nl) = l.
Proof. intros Hfree. unfold chop. by rewrite c_str_line, drop_last_line. Qed.

Lemma main_loop_lines emit_prompt envs tail :
  one_line tail = true ->
  Z.of_nat (String.length tail) < MAXLINE - 1 ->
  forall lines fuel k s,
    Forall (fun l => one_line l = true
                     /\ Z.of_nat (String.length l) < MAXLINE - 1) lines ->
    (String.length (unlines lines +:+ tail) < fuel)%nat ->
    main_loop fuel emit_prompt envs k (unlines lines +:+ tail) s
    = run_lines emit_prompt envs k ((fun l => chop (l +:+ nl)) <$> lines) s.
Proof.
  intros Htail Hshort.
  induction lines as [|l lines IH]; intros fuel k s Hlines Hfuel;
    (destruct fuel as [|fuel]; [lia|]); cbn [main_loop run_lines unlines fmap list_fmap].
  - change (EmptyString +:+ tail) with tail.
    rewrite fgets_tail by (done || lia). reflexivity.
  - inversion Hlines as [|? ? [Hone Hlen] Hrest]; subst.
    cbn [unlines] in Hfuel.
    rewrite !append_assoc in *.
    rewrite !length_append in Hfuel. cbn [String.length nl] in Hfuel.
    rewrite fgets_line by (done || lia).
    unfold bind. destruct (when emit_prompt _ s) as [[] s1|c s1|s1]; try reflexivity.
    destruct (eval _ (envs k) s1) as [[] s2|c s2|s2]; try reflexivity.
    apply IH; [done|]. rewrite length_append. lia.
Qed.

(** X20.  [main] evaluates its input line by line.  When every line is
    shorter than the buffer allows, the shell prompts, evaluates the
    line cut as the code cuts it, and goes on with the next; at the end
    of the input it prints a newline and exits with status 0.  Text
    after the last newline is read but never evaluated.  The line is cut
    at its first NUL and loses the character before; a line without a
    NUL is therefore evaluated as typed, without its newline. *)
Theorem main_reads_line_by_line
    (emit_prompt : bool) (envs : nat -> environment)
    (lines : list string) (tail : string) (s : shell) :
  Forall (fun l => one_line l = true
                   /\ Z.of_nat (String.length l) < MAXLINE - 1) lines ->
  one_line tail = true ->
  Z.of_nat (String.length tail) < MAXLINE - 1 ->
  main emit_prompt envs (unlines lines +:+ tail) s
  = run_lines emit_prompt envs 0 ((fun l => chop (l +:+ nl)) <$> lines) s
  /\ (forall l, lacks zero l = true -> chop (l +:+ nl) = l)
  /\ (forall l rest, lacks zero l = true ->
        chop (l +:+ String zero rest) = drop_last l).
Proof.
  intros Hlines Htail Hshort. split; [|split].
  - unfold main. by apply main_loop_lines; [..|lia].
  - apply chop_line.
  - intros l rest Hfree. unfold chop. f_equal.
    induction l as [|c l IH].
    + change (EmptyString +:+ String zero rest) with (String zero rest).
      reflexivity.
    + change (String c l +:+ String zero rest)
        with (String c (l +:+ String zero rest)).
      cbn [lacks] in Hfree. apply andb_prop in Hfree as [Hc Hfree].
      apply negb_true_iff in Hc. cbn [c_str]. by rewrite Hc, IH.
Qed.

Lemma main_reads_line_by_line_witness :
  main true (fun _ => quiet 0) (unlines ["jobs"; "bg"] +:+ "quit") (startup false)
  = run_lines true (fun _ => quiet 0) 0
      ((fun l => chop (l +:+ nl)) <$> ["jobs"; "bg"]) (startup false)
  /\ (forall l, lacks zero l = true -> chop (l +:+ nl) = l)
  /\ (forall l rest, lacks zero l = true ->
        chop (l +:+ String zero rest) = drop_last l).
Proof.
  apply (main_reads_line_by_line true (fun _ => quiet 0) ["jobs"; "bg"] "quit").
  - repeat constructor.
  - reflexivity.
  - vm_compute. reflexivity.
Defined.

(** ** bg and fg that name no job *)

Lemma exec_unresolved tok junk s :
  argc tok <> 2
  \/ target (job_list s) (nth 1 (argv tok) EmptyString) junk = None ->
  execbg tok junk s = Ret 0 s /\ execfg tok junk s = Ret 0 s.
Proof.
  destruct (Z.eqb_spec (argc tok) 2) as [Htwo|Hne].
  - intros [Hne|Hnone]; [done|]. by apply unresolved_target_no_effect.
  - intros _. unfold execbg, execfg.
    replace (argc tok =? 2) with false by (symmetry; by apply Z.eqb_neq).
    done.
Qed.

(** X21.  A bg or fg that leads to no job, because it has not exactly
    one argument or because the argument leads to none, is not
    rejected: [builtin_command] returns 0 and [eval] goes on as for an
    external command.  It forks, adds the child to the job table under
    the line, and then waits for it or prints the background line. *)
Theorem unresolved_bg_fg_is_forked
    (line : string) (env : environment) (s : shell) (bg : Z) (tok : cmdline_tokens) :
  parse line = Parsed bg tok ->
  builtins tok = BUILTIN_BG \/ builtins tok = BUILTIN_FG ->
  argc tok <> 2
  \/ target (job_list s) (nth 1 (argv tok) EmptyString) (junk env) = None ->
  eval line env s =
  (do _r <- addjob (fork_pid env) (if bg =? 0 then FG else BG) line;
   after_addjob line env bg tok (sigmask s))
    {| job_list := job_list s; nextjid := nextjid s; verbose := verbose s;
       sigmask := sigmask s ++ eval_mask;
       trace := trace s ++ saved tok ++ redirected tok ++ [ForkCall (fork_pid env)] |}.
Proof.
  intros Hparse Hb Hnone.
  destruct (parse_builtin_argv _ _ _ Hparse) as (arg0 & rest & Hargv);
    [by destruct Hb as [-> | ->]|].
  unfold eval, parseline. rewrite Hparse. run. rewrite Hargv.
  unfold after_addjob, saved, redirected, restored.
  destruct (infile tok) eqn:Hin, (outfile tok) eqn:Hout; run;
    unfold builtin_command; rewrite Hin, Hout; run;
    (destruct Hb as [-> | ->]);
    match goal with
    | |- context [execbg tok ?j ?st] =>
        rewrite (proj1 (exec_unresolved tok j st Hnone))
    | |- context [execfg tok ?j ?st] =>
        rewrite (proj2 (exec_unresolved tok j st Hnone))
    end;
    run; unfold eval_mask; flatten_trace; rewrite ?app_nil_r;
    (destruct (addjob _ _ _ _) as [r s2|c s2|s2]; [|reflexivity..]);
    (destruct (bg =? 0)); run;
    try (destruct (wait_fg _ _ _ _) as [r' s3|c' s3|s3]; [|reflexivity..]);
    try (destruct (reap_early _ _ _ _) as [r' s3|c' s3|s3]; [|reflexivity..]);
    run; flatten_trace; rewrite ?app_nil_r;
    first [reflexivity | by destruct s3 | by destruct s2].
Qed.

Lemma unresolved_bg_fg_is_forked_witness :
  eval "fg" (quiet 100) (startup false) =
  (do _r <- addjob (fork_pid (quiet 100)) (if 0 =? 0 then FG else BG) "fg";
   after_addjob "fg" (quiet 100) 0 (Tokens ["fg"] None None BUILTIN_FG)
     (sigmask (startup false)))
    {| job_list := job_list (startup false); nextjid := nextjid (startup false);
       verbose := verbose (startup false);
       sigmask := sigmask (startup false) ++ eval_mask;
       trace := trace (startup false)
                ++ saved (Tokens ["fg"] None None BUILTIN_FG)
                ++ redirected (Tokens ["fg"] None None BUILTIN_FG)
                ++ [ForkCall (fork_pid (quiet 100))] |}.
Proof.
  apply (unresolved_bg_fg_is_forked "fg" (quiet 100) (startup false) 0
           (Tokens ["fg"] None None BUILTIN_FG)).
  - reflexivity.
  - by right.
  - left. discriminate.
Defined.

(** ** Quotes and redirections on the command line *)

Lemma upto_char_found q body rest :
  lacks q body = true ->
  upto_char q (body +:+ String q rest) = Some (body, String q rest).
Proof.
  induction body as [|c body IH]; intros Hfree.
  - change (EmptyString +:+ String q rest) with (String q rest).
    cbn [upto_char]. by rewrite Ascii.eqb_refl.
  - change (String c body +:+ String q rest)
      with (String c (body +:+ String q rest)).
    cbn [lacks] in Hfree. apply andb_prop in Hfree as [Hc Hfree].
    apply negb_true_iff in Hc. cbn [upto_char]. by rewrite Hc, IH.
Qed.

Lemma upto_char_missing q body :
  lacks q body = true -> upto_char q body = None.
Proof.
  induction body as [|c body IH]; intros Hfree; [reflexivity|].
  cbn [lacks] in Hfree. apply andb_prop in Hfree as [Hc Hfree].
  apply negb_true_iff in Hc. cbn [upto_char]. by rewrite Hc, IH.
Qed.

(** X22.  Quoting.  A line that fits the buffer and is one quoted text,
    the text free of the quote character, gives the text as the only
    argument, white space included.  The quotes do not hide it from
    the tests made on arguments: it selects a builtin when it is the
    name of one, and it is taken as the background marker when it
    starts with one.  Without the closing quote [eval] prints the
    unmatched-quote message and does nothing else. *)
Theorem parseline_quoted_argument
    (q : ascii) (body : string) (env : environment) (s : shell) :
  q = squote \/ q = dquote ->
  lacks q body = true ->
  Z.of_nat (String.length body) + 2 < MAXLINE ->
  parse (String q (body +:+ String q EmptyString))
  = (if starts_with_amp body
     then Parsed 1 (Tokens [] None None (classify body))
     else Parsed 0 (Tokens [body] None None (classify body)))
  /\ eval (String q body) env s
     = Ret tt (with_trace
                 (trace s ++ [Output ("Error: unmatched " +:+ String q "." +:+ nl)]) s).
Proof.
  intros Hq Hfree _. split.
  - unfold parse. cbn [scan String.length].
    assert (Hplain : is_delim q = false /\ Ascii.eqb q "<" = false
                     /\ Ascii.eqb q ">" = false
                     /\ (Ascii.eqb q squote || Ascii.eqb q dquote) = true)
      by (by destruct Hq as [-> | ->]).
    destruct Hplain as (Hd & Hlt & Hgt & Hquote).
    cbn [skip_delims]. rewrite Hd, Hlt, Hgt, Hquote.
    rewrite (upto_char_found _ _ _ Hfree).
    cbn [record_token a_state a_argv a_infile a_outfile app length after].
    change (ST_NORMAL =? ST_NORMAL) with true. cbv iota.
    cbn [a_argv length].
    change (Z.of_nat 1 >=? MAXARGS - 1) with false. cbv iota.
    rewrite length_append. cbn [String.length].
    replace (String.length body + 1)%nat with (S (String.length body)) by lia.
    cbn [scan skip_delims].
    unfold finish_parse. cbn [a_state a_argv a_infile a_outfile List.last removelast].
    change (negb (ST_NORMAL =? ST_NORMAL)) with false. cbv iota.
    cbn [hd]. reflexivity.
  - unfold eval, parseline, parse. cbn [scan String.length].
    assert (Hplain : is_delim q = false /\ Ascii.eqb q "<" = false
                     /\ Ascii.eqb q ">" = false
                     /\ (Ascii.eqb q squote || Ascii.eqb q dquote) = true)
      by (by destruct Hq as [-> | ->]).
    destruct Hplain as (Hd & Hlt & Hgt & Hquote).
    cbn [skip_delims]. rewrite Hd, Hlt, Hgt, Hquote.
    rewrite (upto_char_missing _ _ Hfree). reflexivity.
Qed.

Lemma parseline_quoted_argument_witness :
  parse (String dquote ("two words" +:+ String dquote EmptyString))
  = (if starts_with_amp "two words"
     then Parsed 1 (Tokens [] None None (classify "two words"))
     else Parsed 0 (Tokens ["two words"] None None (classify "two words")))
  /\ eval (String dquote "two words") (quiet 0) (startup false)
     = Ret tt (with_trace
                 (trace (startup false)
                  ++ [Output ("Error: unmatched " +:+ String dquote "." +:+ nl)])
                 (startup false)).
Proof.
  apply (parseline_quoted_argument dquote "two words" (quiet 0) (startup false)).
  - by right.
  - reflexivity.
  - vm_compute. reflexivity.
Defined.

(** One round of the loop on a plain word. *)
Lemma scan_word_step fuel w next a a' :
  plain_word w = true ->
  match next with String c _ => is_delim c = true | EmptyString => True end ->
  record_token w a = Some a' ->
  Z.of_nat (length (a_argv a')) < MAXARGS - 1 ->
  scan (S fuel) (w +:+ next) a = scan fuel (after next) a'.
Proof.
  intros Hw Hnext Hrec Hroom.
  destruct w as [|c w]; [discriminate|].
  unfold plain_word in Hw. do 4 (apply andb_prop in Hw as [Hw ?]).
  repeat match goal with
    | H : negb _ = true |- _ => apply negb_true_iff in H
    end.
  pose proof Hw as Hnd. cbn [no_delim] in Hnd.
  apply andb_prop in Hnd as [Hc _]. apply negb_true_iff in Hc.
  cbn [scan]. change (String c w +:+ next) with (String c (w +:+ next)).
  cbn [skip_delims]. rewrite Hc.
  repeat match goal with
    | H : Ascii.eqb c _ = false |- _ => rewrite H
    end.
  cbn [orb]. change (String c (w +:+ next)) with (String c w +:+ next).
  rewrite (upto_delim_word _ _ Hw Hnext), Hrec.
  destruct (Z.geb_spec (Z.of_nat (length (a_argv a'))) (MAXARGS - 1)); [lia|done].
Qed.

Lemma append_nil_r (w : string) : w +:+ EmptyString = w.
Proof.
  induction w as [|c w IH]; [reflexivity|].
  change (String c w +:+ EmptyString) with (String c (w +:+ EmptyString)).
  by rewrite IH.
Qed.

Lemma scan_word_last fuel w a a' :
  plain_word w = true ->
  record_token w a = Some a' ->
  Z.of_nat (length (a_argv a')) < MAXARGS - 1 ->
  scan (S fuel) w a = scan fuel EmptyString a'.
Proof.
  intros Hw Hrec Hroom.
  rewrite <- (append_nil_r w) at 1. by apply scan_word_step.
Qed.

Lemma scan_skip fuel c buf a :
  is_delim c = true -> scan fuel (String c buf) a = scan fuel buf a.
Proof.
  intros Hc. destruct fuel as [|fuel]; [reflexivity|].
  cbn [scan skip_delims]. by rewrite Hc.
Qed.

Lemma scan_lt fuel rest a :
  a_infile a = None ->
  scan (S fuel) (String "<" rest) a
  = scan fuel rest
      (Acc (a_argv a) (a_infile a) (a_outfile a) (Z.lor (a_state a) ST_INFILE)).
Proof.
  intros Hin. cbn [scan skip_delims]. change (is_delim "<") with false. cbv iota.
  change (Ascii.eqb "<" "<") with true. cbv iota. by rewrite Hin.
Qed.

Lemma scan_gt fuel rest a :
  a_outfile a = None ->
  scan (S fuel) (String ">" rest) a
  = scan fuel rest
      (Acc (a_argv a) (a_infile a) (a_outfile a) (Z.lor (a_state a) ST_OUTFILE)).
Proof.
  intros Hout. cbn [scan skip_delims]. change (is_delim ">") with false. cbv iota.
  change (Ascii.eqb ">" "<") with false. change (Ascii.eqb ">" ">") with true.
  cbv iota. by rewrite Hout.
Qed.

(** The loop on plain words followed by more text. *)
Lemma scan_words_then ws : forall fuel a tail,
  ws <> [] ->
  Forall (fun w => plain_word w = true) ws ->
  a_state a = ST_NORMAL ->
  Z.of_nat (length (a_argv a)) + Z.of_nat (length ws) < MAXARGS - 1 ->
  match tail with String c _ => is_delim c = true | EmptyString => True end ->
  scan (length ws + fuel) (unwords ws +:+ tail) a
  = scan fuel (after tail)
      (Acc (a_argv a ++ ws) (a_infile a) (a_outfile a) ST_NORMAL).
Proof.
  induction ws as [|w ws IH]; intros fuel a tail Hne Hplain Hstate Hlen Htail;
    [done|].
  inversion Hplain as [|? ? Hw Hws]; subst. cbn [length] in Hlen.
  assert (Hrec : record_token w a
                 = Some (Acc (a_argv a ++ [w]) (a_infile a) (a_outfile a) ST_NORMAL)).
  { unfold record_token. rewrite Hstate. reflexivity. }
  destruct ws as [|w' ws].
  - cbn [unwords length Nat.add].
    rewrite (scan_word_step _ _ _ _ _ Hw Htail Hrec);
      [reflexivity|cbn [a_argv]; rewrite length_app; cbn [length]; lia].
  - replace (unwords (w :: w' :: ws) +:+ tail)
      with (w +:+ String " " (unwords (w' :: ws) +:+ tail))
      by (change (unwords (w :: w' :: ws)) with (w +:+ " " +:+ unwords (w' :: ws));
          by rewrite !append_assoc).
    change (length (w :: w' :: ws) + fuel)%nat
      with (S (length (w' :: ws) + fuel)).
    rewrite (scan_word_step _ w (String " " (unwords (w' :: ws) +:+ tail)) _ _
               Hw eq_refl Hrec);
      [|cbn [a_argv]; rewrite length_app; cbn [length]; lia].
    cbn [after]. rewrite IH; cbn [a_argv a_infile a_outfile a_state]; try done.
    + by rewrite <- app_assoc.
    + rewrite length_app. cbn [length] in *. lia.
Qed.

Lemma unwords_length ws :
  Forall (fun w => plain_word w = true) ws ->
  (length ws <= String.length (unwords ws))%nat.
Proof.
  induction 1 as [|w ws Hw _ IH]; [done|].
  destruct w as [|c w]; [discriminate|].
  destruct ws as [|w' ws]; [cbn; lia|].
  change (unwords (String c w :: w' :: ws))
    with (String c (w +:+ " " +:+ unwords (w' :: ws))).
  cbn [String.length length] in *. rewrite !length_append. lia.
Qed.

(** X23.  Redirection.  On a line that fits the buffer, plain words
    followed by an input and an output redirection to plain file
    names, all separated by single spaces, give the words as the
    arguments and the two names as the files; the names and the
    markers are no arguments.  A line that ends with a redirection
    marker is refused with the message that asks for a file name. *)
Theorem parseline_redirection (ws : list string) (f g : string) :
  ws <> [] ->
  Forall (fun w => plain_word w = true) ws ->
  plain_word f = true ->
  plain_word g = true ->
  Z.of_nat (length ws) < MAXARGS - 1 ->
  Z.of_nat (String.length (unwords ws +:+ " < " +:+ f +:+ " > " +:+ g)) < MAXLINE ->
  parse (unwords ws +:+ " < " +:+ f +:+ " > " +:+ g)
  = (if starts_with_amp (List.last ws EmptyString)
     then Parsed 1 (Tokens (removelast ws) (Some f) (Some g)
                      (classify (hd EmptyString ws)))
     else Parsed 0 (Tokens ws (Some f) (Some g) (classify (hd EmptyString ws))))
  /\ parse (unwords ws +:+ " <")
     = ParseError ("Error: must provide file name for redirection" +:+ nl).
Proof.
  intros Hne Hplain Hf Hg Hlen _.
  pose proof (unwords_length ws Hplain) as Hwords.
  split.
  - change (" < " +:+ f +:+ " > " +:+ g)
      with (String " " (String "<" (String " "
              (f +:+ String " " (String ">" (String " " g)))))).
    unfold parse.
    match goal with
    | |- context [scan (S (String.length ?line))] =>
        replace (S (String.length line))
          with (length ws + S (S (S (S (S (String.length line - length ws - 4))))))%nat
          by (repeat first [rewrite length_append | progress cbn [String.length]];
              lia)
    end.
    rewrite (scan_words_then ws) by (cbn [a_argv a_state length]; first [done | lia]).
    cbn [a_argv a_infile a_outfile a_state length app].
    cbn [after]. rewrite scan_lt by reflexivity.
    cbn [a_argv a_infile a_outfile a_state].
    rewrite scan_skip by reflexivity.
    rewrite (scan_word_step _ f (String " " (String ">" (String " " g)))
               (Acc ws None None (Z.lor ST_NORMAL ST_INFILE))
               (Acc ws (Some f) None ST_NORMAL) Hf eq_refl eq_refl)
      by (cbn [a_argv]; lia).
    cbn [after]. rewrite scan_gt by reflexivity.
    cbn [a_argv a_infile a_outfile a_state].
    rewrite scan_skip by reflexivity.
    rewrite (scan_word_last _ g
               (Acc ws (Some f) None (Z.lor ST_NORMAL ST_OUTFILE))
               (Acc ws (Some f) (Some g) ST_NORMAL) Hg eq_refl)
      by (cbn [a_argv]; lia).
    cbn [scan skip_delims].
    unfold finish_parse. cbn [a_argv a_infile a_outfile a_state].
    change (negb (ST_NORMAL =? ST_NORMAL)) with false. cbv iota.
    destruct ws as [|w ws]; [done|]. reflexivity.
  - unfold parse.
    match goal with
    | |- context [scan (S (String.length ?line))] =>
        replace (S (String.length line))
          with (length ws + S (S (String.length line - length ws - 1)))%nat
          by (repeat first [rewrite length_append | progress cbn [String.length]];
              lia)
    end.
    rewrite (scan_words_then ws) by (cbn [a_argv a_state length]; first [done | lia]).
    cbn [a_argv a_infile a_outfile a_state length app].
    cbn [after]. rewrite scan_lt by reflexivity. reflexivity.
Qed.

Lemma parseline_redirection_witness :
  parse (unwords ["/bin/cat"] +:+ " < " +:+ "in.txt" +:+ " > " +:+ "out.txt")
  = (if starts_with_amp (List.last ["/bin/cat"] EmptyString)
     then Parsed 1 (Tokens (removelast ["/bin/cat"]) (Some "in.txt") (Some "out.txt")
                      (classify (hd EmptyString ["/bin/cat"])))
     else Parsed 0 (Tokens ["/bin/cat"] (Some "in.txt") (Some "out.txt")
                      (classify (hd EmptyString ["/bin/cat"]))))
  /\ parse (unwords ["/bin/cat"] +:+ " <")
     = ParseError ("Error: must provide file name for redirection" +:+ nl).
Proof.
  apply (parseline_redirection ["/bin/cat"] "in.txt" "out.txt").
  - discriminate.
  - repeat constructor.
  - reflexivity.
  - reflexivity.
  - vm_compute. reflexivity.
  - vm_compute. reflexivity.
Defined.

(** ** A command on a full table *)


